(** * qq-neural-anime-tg: the request / download / session pipeline of [src/index.ts]

    A shallow embedding of the four pieces of [src/index.ts] that carry the
    behaviour of the bot:

    - [qqRequest]   (lines 17-80): the retrying submission client,
    - [qqDownload]  (lines 82-102): the retrying binary download,
    - [userSessions], [addUserSession] (lines 104, 180-196): the session list,
    - [processUserSession] (lines 106-178): one orchestration run.

    The network and the chat platform are the environment: every awaited call
    is answered by the environment, and the model is a function of those
    answers.  A loop that waits for an answer the environment has not given
    yet is [Pending]. *)

From Stdlib Require Import ZArith List String Bool Lia Arith DecimalString.
From Stdlib Require Import Permutation.
Import ListNotations.
Local Open Scope string_scope.
Local Open Scope list_scope.
Local Open Scope Z_scope.
Set Warnings "-register-all".

(* ===================================================================== *)
(** ** JavaScript values *)
(* ===================================================================== *)

Module JS.

(** The values the code inspects: the parsed response bodies ([any] in the
    source), their fields, and the binary bodies of the downloads.  Numbers
    are the integers; the code only compares a number with [1001] and tests
    its truthiness. *)
Inductive Value : Type :=
| Undefined
| Null
| Bool (b : bool)
| Num (n : Z)
| Str (s : string)
| Buffer (bytes : list Byte.byte)
| Arr (items : list Value)
| Obj (fields : list (string * Value)).

(** [ToBoolean]: what [if (v)] and [!v] test. Objects, arrays and buffers
    are truthy, the empty ones too. *)
Definition truthy (v : Value) : bool :=
  match v with
  | Undefined | Null => false
  | Bool b => b
  | Num n => negb (n =? 0)
  | Str s => negb (s =? "")%string
  | Buffer _ | Arr _ | Obj _ => true
  end.

(** [v === 'lit'] for a string literal. *)
Definition is_str (v : Value) (lit : string) : bool :=
  match v with
  | Str s => (s =? lit)%string
  | _ => false
  end.

(** [v === n] for a number literal. *)
Definition is_num (v : Value) (lit : Z) : bool :=
  match v with
  | Num n => n =? lit
  | _ => false
  end.

Fixpoint assoc (k : string) (fields : list (string * Value)) : Value :=
  match fields with
  | [] => Undefined
  | (k', v) :: rest => if (k =? k')%string then v else assoc k rest
  end.

(** [v?.name] for the own data properties the source reads ([msg], [code],
    [extra], [data]): undefined on [undefined] and [null], a lookup on an
    object, undefined on every other value. *)
Definition opt_prop (v : Value) (name : string) : Value :=
  match v with
  | Obj fields => assoc name fields
  | _ => Undefined
  end.

(** What a JavaScript computation can throw here. *)
Inductive Message : Type :=
| Text (s : string)
| Stringified (v : Value).          (* the result of [JSON.stringify(v)] *)

Inductive Error : Type :=
| Err (m : Message)                 (* [new Error(m)] *)
| TypeError                         (* property read on undefined / null *)
| SyntaxError                       (* [JSON.parse] on malformed text *)
| RangeError                        (* [Number.prototype.toString] radix *)
| External (tag : string).          (* a rejection of a collaborator's promise *)

(** [v.name] without optional chaining: a [TypeError] on [undefined] and
    [null]. *)
Definition prop (v : Value) (name : string) : Value + Error :=
  match v with
  | Undefined | Null => inr TypeError
  | _ => inl (opt_prop v name)
  end.

(** The property name of an array index. *)
Definition decimal_index (i : nat) : string :=
  NilEmpty.string_of_uint (Nat.to_uint i).

(** [v[i]] for a literal index [i]. *)
Definition index (v : Value) (i : nat) : Value + Error :=
  match v with
  | Undefined | Null => inr TypeError
  | Arr items => inl (nth i items Undefined)
  | Str s => inl (match String.get i s with
                  | Some c => Str (String c EmptyString)
                  | None => Undefined
                  end)
  | Buffer bytes => inl (match nth_error bytes i with
                         | Some b => Num (Z.of_N (Byte.to_N b))
                         | None => Undefined
                         end)
  | Obj fields => inl (assoc (decimal_index i) fields)
  | Bool _ | Num _ => inl Undefined
  end.

Fixpoint has_key (k : string) (fields : list (string * Value)) : bool :=
  match fields with
  | [] => false
  | (k', _) :: rest => (k =? k')%string || has_key k rest
  end.

(** [v.toString('base64')]: the method is missing on [undefined] and [null],
    [Number.prototype.toString] refuses the radix, an own [toString] field of
    a data object is not callable; every other value gives a string. *)
Definition toString_base64 (v : Value) : unit + Error :=
  match v with
  | Undefined | Null => inr TypeError
  | Num _ => inr RangeError
  | Obj fields => if has_key "toString" fields then inr TypeError else inl tt
  | Bool _ | Str _ | Buffer _ | Arr _ => inl tt
  end.

End JS.

(* ===================================================================== *)
(** ** Effects: a trace of events and three ways for a computation to stand *)
(* ===================================================================== *)

Inductive event : Type :=
| EvPost                                   (* one POST to the remote service *)
| EvGet                                    (* one GET of a binary asset *)
| EvSleep (ms : Z)                         (* [setTimeout(resolve, ms)] awaited *)
| EvLog (line : string)                    (* [console.log] / [console.error] *)
| EvReply (text : string)                  (* [ctx.reply(text)] *)
| EvErrorNotice (e : JS.Error)             (* the reply of the catch block *)
| EvWriteFile (tag : string) (body : JS.Value)
| EvSendPhoto (body : JS.Value)
| EvSendVideo (body : JS.Value)
| EvRelease (user : Z).                    (* lines 175-176 executed *)

Inductive Outcome (A : Type) : Type :=
| Ok (a : A)                               (* the promise resolved *)
| Throw (e : JS.Error)                     (* the promise rejected *)
| Pending.                                 (* still waiting for the environment *)
Arguments Ok {A} a.
Arguments Throw {A} e.
Arguments Pending {A}.

(** An asynchronous computation: what it did so far and where it stands. *)
Definition Async (A : Type) : Type := (list event * Outcome A)%type.

Definition ret {A} (a : A) : Async A := ([], Ok a).
Definition throw {A} (e : JS.Error) : Async A := ([], Throw e).
Definition emit (ev : event) : Async unit := ([ev], Ok tt).

Definition bind {A B} (m : Async A) (k : A -> Async B) : Async B :=
  match m with
  | (t, Ok a) => let (t', o) := k a in (t ++ t', o)
  | (t, Throw e) => (t, Throw e)
  | (t, Pending) => (t, Pending)
  end.

(** [try { m } catch (e) { h e }]. *)
Definition try_catch {A} (m : Async A) (h : JS.Error -> Async A) : Async A :=
  match m with
  | (t, Throw e) => let (t', o) := h e in (t ++ t', o)
  | other => other
  end.

Declare Scope async_scope.
Delimit Scope async_scope with async.
Notation "x <- m ;; k" := (bind m (fun x => k))
  (at level 61, m at next level, right associativity) : async_scope.
Notation "m ;;; k" := (bind m (fun _ => k))
  (at level 61, right associativity) : async_scope.
Local Open Scope async_scope.

(** Events put in front of a computation's own. *)
Definition after {A} (t : list event) (m : Async A) : Async A :=
  (t ++ fst m, snd m).

(* ===================================================================== *)
(** ** The HTTP client as the code sees it *)
(* ===================================================================== *)

(** An axios response; only [data] is read by the source. *)
Record Response : Type := { data : JS.Value }.

(** How one [axios.request] settles: resolved with a response, or rejected
    with an error [e] whose [e.response] is a response (an HTTP error status)
    or undefined (timeout, connection error). *)
Inductive attempt : Type :=
| Resolved (r : Response)
| Rejected (r : option Response).

(** [response?.data]. *)
Definition opt_data (response : option Response) : JS.Value :=
  match response with
  | Some r => data r
  | None => JS.Undefined
  end.

(** The value of [response] after a try/catch whose two branches both assign
    it: [response = await axios.request(...)] and
    [response = (e as AxiosError).response] (lines 24 and 47, 86 and 92). *)
Definition response_of (a : attempt) : option Response :=
  match a with
  | Resolved r => Some r
  | Rejected r => r
  end.

(* ===================================================================== *)
(** ** AssetFetcher: [qqDownload] (lines 82-102) *)
(* ===================================================================== *)

Module Download.

Definition attempt_events (a : attempt) : list event :=
  match a with
  | Resolved _ => [EvGet]
  | Rejected _ => [EvGet; EvLog "QQ file download error caught"]
  end.

(** [for (let retry = 0; retry < 100; retry++) { ... }], entered at the test
    of the condition.  [net] holds the answers of the network, one per
    request. *)
Fixpoint qqDownload_for (net : list attempt) (retry : Z)
    (response : option Response) {struct net} : Async (option Response) :=
  if retry <? 100 then
    match net with
    | [] => ([], Pending)
    | a :: net' =>
        let response := response_of a in
        if JS.truthy (opt_data response)
        then (attempt_events a, Ok response)                       (* break *)
        else after (attempt_events a) (qqDownload_for net' (retry + 1) response)
    end
  else ([], Ok response).

(** [return response?.data]: there is no throw in the function. *)
Definition qqDownload (net : list attempt) : Async JS.Value :=
  response <- qqDownload_for net 0 None ;;
  ret (opt_data response).

(** An attempt that does not end the loop. *)
Definition fails (a : attempt) : bool :=
  negb (JS.truthy (opt_data (response_of a))).

End Download.

(* ===================================================================== *)
(** ** RemoteJobClient: [qqRequest] (lines 17-80) *)
(* ===================================================================== *)

Module Request.

(** How the body of the loop is left. *)
Inductive exit : Type :=
| Continue                         (* the end of the body: [retry++] follows *)
| Break
| Raise (e : JS.Error).

Definition censorship : JS.Error :=
  JS.Err (JS.Text "Couldn't pass the censorship. Try another photo.").
Definition no_face : JS.Error :=
  JS.Err (JS.Text "No face in image").

(** The four tests of lines 52, 56, 62 and 66 on [data]. *)
Definition illegal (d : JS.Value) : bool := JS.is_str (JS.opt_prop d "msg") "IMG_ILLEGAL".
Definition rate_limit (d : JS.Value) : bool := JS.is_str (JS.opt_prop d "msg") "VOLUMN_LIMIT".
Definition code_1001 (d : JS.Value) : bool := JS.is_num (JS.opt_prop d "code") 1001.
Definition has_extra (d : JS.Value) : bool := JS.truthy (JS.opt_prop d "extra").

Definition backoff : list event :=
  [EvLog "QQ rate limit caught"; EvSleep 3000].

(** Lines 23-68, one pass through the body of the loop with the answer [a]
    to its POST: the events, the value of [retry] when the body is left, and
    how it is left.  The request body (the image, the fixed parameters and
    the correlation id) does not influence the control flow and is left out. *)
Definition qqRequest_body (retry : Z) (a : attempt) : list event * Z * exit :=
  let d := opt_data (response_of a) in
  if illegal d then ([EvPost], retry, Raise censorship)
  else
    let '(evs, retry) :=
      if rate_limit d then (EvPost :: backoff, retry - 1) else ([EvPost], retry) in
    if code_1001 d then (evs, retry, Raise no_face)
    else if has_extra d then (evs, retry, Break)
    else (evs, retry, Continue).

(** [for (let retry = 0; retry < 100; retry++) { ... }], entered at the test
    of the condition, with the variables [response] and [data] of lines
    20-21.  The result is the pair of them when the loop is left. *)
Fixpoint qqRequest_for (net : list attempt) (retry : Z)
    (response : option Response) (d : JS.Value) {struct net}
    : Async (option Response * JS.Value) :=
  if retry <? 100 then
    match net with
    | [] => ([], Pending)
    | a :: net' =>
        let response := response_of a in
        let d := opt_data response in
        match qqRequest_body retry a with
        | (evs, _, Raise e) => (evs, Throw e)
        | (evs, _, Break) => (evs, Ok (response, d))
        | (evs, retry, Continue) =>
            after evs (qqRequest_for net' (retry + 1) response d)
        end
    end
  else ([], Ok (response, d)).

(** The two locations of a result. *)
Record Urls : Type := { video : JS.Value; img : JS.Value }.

Definition lift {A} (r : A + JS.Error) : Async A :=
  match r with
  | inl a => ret a
  | inr e => throw e
  end.

Section Parse.

(** [JSON.parse]: [None] when it throws a [SyntaxError].  Its argument is
    whatever value the [extra] field holds ([as string] is a cast of the type
    checker only). *)
Variable JSON_parse : JS.Value -> option JS.Value.

(** Lines 72-76. *)
Definition extract (extra_field : JS.Value) : Async Urls :=
  match JSON_parse extra_field with
  | None => throw JS.SyntaxError
  | Some extra =>
      video_urls <- lift (JS.prop extra "video_urls") ;;
      v <- lift (JS.index video_urls 0) ;;
      img_urls <- lift (JS.prop extra "img_urls") ;;
      i <- lift (JS.index img_urls 1) ;;
      ret {| video := v; img := i |}
  end.

(** Lines 71-79, after the loop. *)
Definition qqRequest_end (st : option Response * JS.Value) : Async Urls :=
  let (response, d) := st in
  if has_extra d
  then extract (JS.opt_prop d "extra")
  else throw (JS.Err (JS.Stringified (opt_data response))).

(** The client from the state [(retry, response, data)] of its loop. *)
Definition qqRequest_from (net : list attempt) (retry : Z)
    (response : option Response) (d : JS.Value) : Async Urls :=
  st <- qqRequest_for net retry response d ;;
  qqRequest_end st.

Definition qqRequest (net : list attempt) : Async Urls :=
  qqRequest_from net 0 None JS.Undefined.

End Parse.

(** The POSTs of a trace. *)
Definition is_post (ev : event) : bool :=
  match ev with EvPost => true | _ => false end.
Definition posts (t : list event) : nat := List.length (filter is_post t).

(** The payload classes of the specification, read off the tests above. *)
Definition payload (a : attempt) : JS.Value := opt_data (response_of a).

Definition only_illegal (a : attempt) : bool :=
  illegal (payload a) && negb (rate_limit (payload a))
  && negb (code_1001 (payload a)) && negb (has_extra (payload a)).
Definition only_rate_limit (a : attempt) : bool :=
  rate_limit (payload a) && negb (illegal (payload a))
  && negb (code_1001 (payload a)) && negb (has_extra (payload a)).
Definition only_no_face (a : attempt) : bool :=
  code_1001 (payload a) && negb (illegal (payload a)) && negb (rate_limit (payload a))
  && negb (has_extra (payload a)).
Definition only_success (a : attempt) : bool :=
  has_extra (payload a) && negb (illegal (payload a)) && negb (rate_limit (payload a))
  && negb (code_1001 (payload a)).
Definition unrecognized (a : attempt) : bool :=
  negb (illegal (payload a)) && negb (rate_limit (payload a))
  && negb (code_1001 (payload a)) && negb (has_extra (payload a)).


(** An attempt that consumes one unit of the budget and keeps the loop going,
    and one that keeps the loop going in either way. *)
Definition retryable (a : attempt) : bool := only_rate_limit a || unrecognized a.
Definition consuming (a : attempt) : bool := negb (rate_limit (payload a)).
Definition consumed (net : list attempt) : nat := List.length (filter consuming net).

(** What the attempts that keep the loop going leave in the trace. *)
Definition retry_events (pre : list attempt) : list event :=
  flat_map (fun a => if rate_limit (payload a) then EvPost :: backoff else [EvPost]) pre.

(** What a run of [n] rate-limited attempts leaves in the trace. *)
Fixpoint rate_limit_events (n : nat) : list event :=
  match n with
  | O => []
  | S n' => (EvPost :: backoff) ++ rate_limit_events n'
  end.

(** [response] and [data] after the attempts [pre]. *)
Fixpoint state_after (pre : list attempt) (st : option Response * JS.Value)
    : option Response * JS.Value :=
  match pre with
  | [] => st
  | a :: pre' => state_after pre' (response_of a, payload a)
  end.

(** The answers of the network without the purely rate-limited ones. *)
Definition without_rate_limits (net : list attempt) : list attempt :=
  filter (fun a => negb (only_rate_limit a)) net.

End Request.

(* ===================================================================== *)
(** ** SessionRegistry: [userSessions] and [addUserSession] *)
(* ===================================================================== *)

(** The delivery handle of the chat platform, opaque to the core. *)
Definition Context : Type := nat.

Record UserSession : Type :=
  { userId : Z; photoId : string; ctx : Context }.

Module Registry.

(** [userSessions.find((session) => session.userId === userId)]. *)
Fixpoint find (u : Z) (sessions : list UserSession) : option UserSession :=
  match sessions with
  | [] => None
  | s :: rest => if userId s =? u then Some s else find u rest
  end.

(** [userSessions.findIndex(...)]: the index of the first match, [-1] when
    there is none. *)
Fixpoint findIndex (u : Z) (sessions : list UserSession) : Z :=
  match sessions with
  | [] => -1
  | s :: rest =>
      if userId s =? u then 0
      else let i := findIndex u rest in if i <? 0 then -1 else i + 1
  end.

(** [Array.prototype.splice(start, deleteCount)] on the array itself: a
    negative [start] counts from the end, and both are clamped to the
    array. *)
Definition splice {A} (start deleteCount : Z) (l : list A) : list A :=
  let len := Z.of_nat (List.length l) in
  let from := if start <? 0 then Z.max (len + start) 0 else Z.min start len in
  let count := Z.min (Z.max deleteCount 0) (len - from) in
  firstn (Z.to_nat from) l ++ skipn (Z.to_nat (from + count)) l.

(** Lines 175-176 of [processUserSession]. *)
Definition releaseSession (u : Z) (sessions : list UserSession) : list UserSession :=
  splice (findIndex u sessions) 1 sessions.

(** Lines 181-193 of [addUserSession]: the admission, up to the call of
    [processUserSession].  [None] is the early return of line 184. *)
Definition addUserSession (u : Z) (p : string) (c : Context)
    (sessions : list UserSession)
    : list event * option UserSession * list UserSession :=
  match find u sessions with
  | Some _ =>
      ([EvReply "You are already in the queue, please wait"], None, sessions)
  | None =>
      let session := {| userId := u; photoId := p; ctx := c |} in
      ([EvLog "Sessions length increased"], Some session, sessions ++ [session])
  end.

(** The list without the first entry of [u]. *)
Fixpoint remove_first (u : Z) (sessions : list UserSession) : list UserSession :=
  match sessions with
  | [] => []
  | s :: rest => if userId s =? u then rest else s :: remove_first u rest
  end.

(** The entries of a user. *)
Definition entries (u : Z) (sessions : list UserSession) : list UserSession :=
  filter (fun s => userId s =? u) sessions.

(** The bot as a whole: the session list and the users whose run has been
    started and has not reached line 175 yet. *)
Record System : Type :=
  { userSessions : list UserSession; running : list Z }.

Definition initial : System := {| userSessions := []; running := [] |}.

Inductive action : Type :=
| Photo (u : Z) (p : string) (c : Context)   (* the handler of line 202 fires *)
| Finish (u : Z).                            (* a run of [u] reaches line 175 *)

Fixpoint remove_one (u : Z) (l : list Z) : list Z :=
  match l with
  | [] => []
  | x :: rest => if x =? u then rest else x :: remove_one u rest
  end.

Definition mem (u : Z) (l : list Z) : bool := existsb (Z.eqb u) l.

(** The handler runs to its first [await] without interruption, and so do
    lines 175-177: both are one step. *)
Definition exec (st : System) (a : action) : option System :=
  match a with
  | Photo u p c =>
      match addUserSession u p c (userSessions st) with
      | (_, Some _, sessions) =>
          Some {| userSessions := sessions; running := u :: running st |}
      | (_, None, sessions) =>
          Some {| userSessions := sessions; running := running st |}
      end
  | Finish u =>
      if mem u (running st)
      then Some {| userSessions := releaseSession u (userSessions st);
                   running := remove_one u (running st) |}
      else None
  end.

(** What holds of every state the bot can be in: no user has two entries,
    no user has two runs, and the users with an entry are those with a
    run. *)
Definition consistent (st : System) : Prop :=
  NoDup (map userId (userSessions st))
  /\ NoDup (running st)
  /\ forall u, In u (running st) <-> In u (map userId (userSessions st)).

Inductive reachable : System -> Prop :=
| reach_initial : reachable initial
| reach_step st a st' : reachable st -> exec st a = Some st' -> reachable st'.

End Registry.

(* ===================================================================== *)
(** ** JobOrchestrator: [processUserSession] (lines 106-178) *)
(* ===================================================================== *)

Module Orchestrator.

(** The answers of the environment to one run: how each awaited promise of
    the chat platform settles, and the answers of the network to the
    requests of each of the four loops. *)
Record Env : Type :=
  { getFileLink : Outcome unit;          (* line 108 *)
    source_net : list attempt;           (* lines 113-117 *)
    reply_received : Outcome unit;       (* line 138 *)
    qq_net : list attempt;               (* line 139 *)
    reply_downloading : Outcome unit;    (* line 142 *)
    video_net : list attempt;            (* line 145 *)
    img_net : list attempt;              (* line 146 *)
    send_photo : Outcome unit;           (* line 157 *)
    send_video : Outcome unit;           (* line 160 *)
    reply_done : Outcome unit;           (* line 166 *)
    reply_error : Outcome unit }.        (* line 170, not awaited *)

Definition with_reply_error (o : Outcome unit) (env : Env) : Env :=
  {| getFileLink := getFileLink env;
     source_net := source_net env;
     reply_received := reply_received env;
     qq_net := qq_net env;
     reply_downloading := reply_downloading env;
     video_net := video_net env;
     img_net := img_net env;
     send_photo := send_photo env;
     send_video := send_video env;
     reply_done := reply_done env;
     reply_error := o |}.

(** [await p] for a promise of the environment. *)
Definition await (o : Outcome unit) : Async unit := ([], o).

(** A promise that is not awaited and whose rejection is handled by
    [.catch(e => e)]: however it settles, the caller goes on. *)
Definition swallowed (o : Outcome unit) : Async unit := ret tt.

(** [Promise.all([a, b])]: both are started; it rejects as soon as one
    rejects (the first of the two when both do) and resolves when both
    have. *)
Definition all2 {A B} (a : Async A) (b : Async B) : Async (A * B) :=
  (fst a ++ fst b,
   match snd a, snd b with
   | Throw e, _ => Throw e
   | _, Throw e => Throw e
   | Ok x, Ok y => Ok (x, y)
   | _, _ => Pending
   end).

Definition load_failed : JS.Error :=
  JS.Err (JS.Text "Couldn't load the photo, please try again").

(** Lines 111-123: the loop that loads the photo.  Its catch block is empty,
    so a rejected request leaves [response] as it was. *)
Fixpoint source_for (net : list attempt) (retry : Z)
    (response : option Response) {struct net} : Async (option Response) :=
  if retry <? 100 then
    match net with
    | [] => ([], Pending)
    | a :: net' =>
        let response :=
          match a with
          | Resolved r => Some r
          | Rejected _ => response
          end in
        if JS.truthy (opt_data response)
        then ([EvGet], Ok response)                                 (* break *)
        else after [EvGet] (source_for net' (retry + 1) response)
    end
  else ([], Ok response).

(** Lines 125-128: the guard after the loop. *)
Definition source_guard (response : option Response) : Async Response :=
  match response with
  | None => emit (EvLog "Couldn't load the photo") ;;; throw load_failed
  | Some r => ret r
  end.

Section Run.

Variable JSON_parse : JS.Value -> option JS.Value.
Variable KEEP_FILES : bool.                                        (* line 15 *)

(** [fs.writeFile(...)] of lines 131 and 150: started and not awaited. *)
Definition keep (tag : string) (body : JS.Value) : Async unit :=
  if KEEP_FILES then emit (EvWriteFile tag body) else ret tt.

(** Lines 108-168, the body of the [try]. *)
Definition processUserSession_try (env : Env) : Async unit :=
  await (getFileLink env) ;;;
  response <- source_for (source_net env) 0 None ;;
  r <- source_guard response ;;
  keep "input" (data r) ;;;
  emit (EvLog "Uploading to QQ") ;;;
  emit (EvReply "Photo has been received, uploading to QQ") ;;;
  await (reply_received env) ;;;
  Request.lift (JS.toString_base64 (data r)) ;;;
  urls <- Request.qqRequest JSON_parse (qq_net env) ;;
  emit (EvLog "QQ responded successfully") ;;;
  emit (EvReply "Downloading the result from QQ") ;;;
  await (reply_downloading env) ;;;
  emit (EvLog "Downloading from QQ") ;;;
  both <- all2 (Download.qqDownload (video_net env))
               (Download.qqDownload (img_net env)) ;;
  keep "output_img" (snd both) ;;;
  all2 (emit (EvSendPhoto (snd both)) ;;; await (send_photo env))
       (emit (EvSendVideo (fst both)) ;;; await (send_video env)) ;;;
  emit (EvLog "Files sent") ;;;
  emit (EvReply "Done.") ;;;                 (* the fixed text of line 166 *)
  await (reply_done env).

(** Lines 169-173, the catch block. *)
Definition processUserSession_catch (env : Env) (e : JS.Error) : Async unit :=
  emit (EvErrorNotice e) ;;;
  swallowed (reply_error env) ;;;
  emit (EvLog "Error has occurred") ;;;
  emit (EvLog "console.error").

(** The whole run.  [sessions] is the session list as it stands when the run
    reaches line 175. *)
Definition processUserSession (env : Env) (s : UserSession)
    (sessions : list UserSession) : Async (list UserSession) :=
  try_catch (processUserSession_try env) (processUserSession_catch env) ;;;
  emit (EvRelease (userId s)) ;;;
  emit (EvLog "Sessions length decreased") ;;;
  ret (Registry.releaseSession (userId s) sessions).

End Run.

(** A request that resolved with a falsy body, and one that was rejected. *)
Definition resolved_empty (a : attempt) : bool :=
  match a with
  | Resolved r => negb (JS.truthy (data r))
  | Rejected _ => false
  end.
Definition is_rejected (a : attempt) : bool :=
  match a with
  | Resolved _ => false
  | Rejected _ => true
  end.

Definition is_release (ev : event) : bool :=
  match ev with EvRelease _ => true | _ => false end.
Definition releases (t : list event) : nat := List.length (filter is_release t).

End Orchestrator.


(* ===================================================================== *)
(** ** Reading a trace *)
(* ===================================================================== *)

Module Trace.

Definition is_get (ev : event) : bool :=
  match ev with EvGet => true | _ => false end.
Definition gets (t : list event) : nat := List.length (filter is_get t).

Definition is_delivery (ev : event) : bool :=
  match ev with EvSendPhoto _ | EvSendVideo _ => true | _ => false end.
Definition deliveries (t : list event) : nat :=
  List.length (filter is_delivery t).

Definition is_notice (ev : event) : bool :=
  match ev with EvErrorNotice _ => true | _ => false end.
Definition notices (t : list event) : nat := List.length (filter is_notice t).

(** The events the three loops can leave: requests, waits and log lines. *)
Definition of_loop (ev : event) : bool :=
  match ev with
  | EvPost | EvGet | EvSleep _ | EvLog _ => true
  | _ => false
  end.

(** What the requests [pre] of [qqDownload] leave in its trace. *)
Definition download_events (pre : list attempt) : list event :=
  flat_map Download.attempt_events pre.

(** [response] of [qqDownload] after the requests [pre]. *)
Definition last_response (pre : list attempt) (response : option Response)
    : option Response :=
  fold_left (fun _ a => response_of a) pre response.

(** The attempt as the two retrying clients see it: the response it leaves
    in [response], resolved or not. *)
Definition as_resolved (a : attempt) : attempt :=
  match response_of a with
  | Some r => Resolved r
  | None => Rejected None
  end.

(** The last response the client has received among the answers [net]:
    an attempt without a response leaves it as it was. *)
Definition last_received (net : list attempt) : option Response :=
  fold_left (fun acc a => match response_of a with
                          | Some r => Some r
                          | None => acc
                          end) net None.

(** The trace without the calls of [fs.writeFile]. *)
Definition is_write (ev : event) : bool :=
  match ev with EvWriteFile _ _ => true | _ => false end.
Definition without_writes (t : list event) : list event :=
  filter (fun ev => negb (is_write ev)) t.

End Trace.

(* ===================================================================== *)
(** ** The bot: the photo handler and the shutdown (lines 180-229) *)
(* ===================================================================== *)

Module Bot.

(** What the handler reads of [ctx.update.message]. *)
Record PhotoSize : Type := { file_id : string }.
Record Message : Type := { from_id : Z; photo : list PhotoSize }.

(** [[...ctx.update.message.photo].pop()?.file_id || ''] (line 206): the
    identifier of the last size of the photo, the empty string when there is
    none or when it is empty.  The copy leaves the message as it is. *)
Definition photoId_of (sizes : list PhotoSize) : string :=
  match rev sizes with
  | [] => ""
  | p :: _ => if (file_id p =? "")%string then "" else file_id p
  end.

Section Handler.

Variable JSON_parse : JS.Value -> option JS.Value.
Variable KEEP_FILES : bool.

(** Lines 180-196, the whole of [addUserSession].  [queue_reply] is how the
    promise of the notice of line 183 settles; [between] is what the other
    handlers do to the session list from the push of line 192 to the moment
    this run reaches line 175.  The result is the session list the call
    leaves. *)
Definition addUserSession (queue_reply : Outcome unit)
    (env : Orchestrator.Env)
    (between : list UserSession -> list UserSession)
    (u : Z) (p : string) (c : Context) (sessions : list UserSession)
    : Async (list UserSession) :=
  match Registry.addUserSession u p c sessions with
  | (evs, None, sessions') =>
      after evs (Orchestrator.await queue_reply ;;; ret sessions')
  | (evs, Some session, sessions') =>
      after evs
        (Orchestrator.processUserSession JSON_parse KEEP_FILES env session
           (between sessions'))
  end.

(** Lines 202-208, the handler of a photo message:
    [addUserSession(userId, photoId, ctx).catch(e => e)]. *)
Definition on_photo (queue_reply : Outcome unit) (env : Orchestrator.Env)
    (between : list UserSession -> list UserSession)
    (m : Message) (c : Context) (sessions : list UserSession)
    : Async unit :=
  after [EvLog "Received photo"]
    (try_catch
       (addUserSession queue_reply env between (from_id m)
          (photoId_of (photo m)) c sessions ;;; ret tt)
       (fun _ => ret tt)).

End Handler.

(** Lines 216-224: [shutDown] on the flag [shuttingDown]; the result is the
    flag and the reasons [bot.stop] has been called with. *)
Definition shutDown (shuttingDown : bool) (reason : string)
    : bool * list string :=
  if shuttingDown then (shuttingDown, []) else (true, [reason]).

(** The process-level events of lines 226-229, in the order they fire. *)
Fixpoint shutDowns (shuttingDown : bool) (reasons : list string)
    : bool * list string :=
  match reasons with
  | [] => (shuttingDown, [])
  | reason :: rest =>
      let (flag, stops) := shutDown shuttingDown reason in
      let (flag', stops') := shutDowns flag rest in
      (flag', stops ++ stops')
  end.

End Bot.

(* ===================================================================== *)
(** ** Canned answers of the environment, for the concrete runs *)
(* ===================================================================== *)

Module Sample.

Definition json (fields : list (string * JS.Value)) : attempt :=
  Resolved {| data := JS.Obj fields |}.

Definition illegal_content : attempt :=
  json [("code", JS.Num 2111); ("msg", JS.Str "IMG_ILLEGAL")].
Definition rate_limited : attempt :=
  json [("code", JS.Num 2114); ("msg", JS.Str "VOLUMN_LIMIT")].
Definition no_face : attempt :=
  json [("code", JS.Num 1001); ("msg", JS.Str "FACE_NOT_FOUND")].
Definition success : attempt :=
  json [("code", JS.Num 0); ("extra", JS.Str "{video_urls, img_urls}")].
Definition busy : attempt :=
  json [("code", JS.Num 500); ("msg", JS.Str "SERVER_BUSY")].
Definition timeout : attempt := Rejected None.

(** The one text this parser knows is the [extra] of [success]. *)
Definition parse (v : JS.Value) : option JS.Value :=
  if JS.is_str v "{video_urls, img_urls}"
  then Some (JS.Obj [("video_urls", JS.Arr [JS.Str "v.mp4"]);
                     ("img_urls", JS.Arr [JS.Str "ignored"; JS.Str "out.jpg"])])
  else None.

Definition session (u : Z) : UserSession :=
  {| userId := u; photoId := "photo"; ctx := O |}.

(** An environment in which the photo loads at once, the downloads succeed
    at once, every message is delivered except the error notice, and the
    remote service answers [qq]. *)
Definition env (source qq : list attempt) : Orchestrator.Env :=
  {| Orchestrator.getFileLink := Ok tt;
     Orchestrator.source_net := source;
     Orchestrator.reply_received := Ok tt;
     Orchestrator.qq_net := qq;
     Orchestrator.reply_downloading := Ok tt;
     Orchestrator.video_net := [Resolved {| data := JS.Buffer [Byte.x01] |}];
     Orchestrator.img_net := [Resolved {| data := JS.Buffer [Byte.x02] |}];
     Orchestrator.send_photo := Ok tt;
     Orchestrator.send_video := Ok tt;
     Orchestrator.reply_done := Ok tt;
     Orchestrator.reply_error := Throw (JS.External "telegram") |}.

Definition photo : attempt := Resolved {| data := JS.Buffer [Byte.xff] |}.
Definition no_body : attempt := Resolved {| data := JS.Undefined |}.

(** The bot after user 42 has sent one photo. *)
Definition one_running : Registry.System :=
  {| Registry.userSessions := [session 42]; Registry.running := [42] |}.

End Sample.

Module Fixture.

Definition error_page : attempt :=
  Rejected (Some {| data := JS.Str "<html>502 Bad Gateway</html>" |}).
Definition empty_file : attempt := Resolved {| data := JS.Buffer [] |}.

(** Payloads with more than one marker. *)
Definition illegal_with_result : attempt :=
  Sample.json [("msg", JS.Str "IMG_ILLEGAL"); ("code", JS.Num 1001);
               ("extra", JS.Str "{video_urls, img_urls}")].
Definition limited_no_face : attempt :=
  Sample.json [("msg", JS.Str "VOLUMN_LIMIT"); ("code", JS.Num 1001)].
Definition limited_result : attempt :=
  Sample.json [("msg", JS.Str "VOLUMN_LIMIT");
               ("extra", JS.Str "{video_urls, img_urls}")].
Definition malformed : attempt :=
  Sample.json [("code", JS.Num 0); ("extra", JS.Str "{video_urls")].

(** A parser that knows a second text, an envelope without [img_urls]. *)
Definition parse (v : JS.Value) : option JS.Value :=
  if JS.is_str v "{video_urls}"
  then Some (JS.Obj [("video_urls", JS.Arr [JS.Str "v.mp4"])])
  else Sample.parse v.
Definition no_images : attempt :=
  Sample.json [("code", JS.Num 0); ("extra", JS.Str "{video_urls}")].

Definition two_running : Registry.System :=
  {| Registry.userSessions := [Sample.session 42; Sample.session 7];
     Registry.running := [7; 42] |}.

(** The user has blocked the bot: the first progress message is refused. *)
Definition blocked : Orchestrator.Env :=
  {| Orchestrator.getFileLink := Ok tt;
     Orchestrator.source_net := [Sample.photo];
     Orchestrator.reply_received := Throw (JS.External "blocked by user");
     Orchestrator.qq_net := [Sample.success];
     Orchestrator.reply_downloading := Ok tt;
     Orchestrator.video_net := [Sample.photo];
     Orchestrator.img_net := [Sample.photo];
     Orchestrator.send_photo := Ok tt;
     Orchestrator.send_video := Ok tt;
     Orchestrator.reply_done := Ok tt;
     Orchestrator.reply_error := Ok tt |}.

(** The image cannot be downloaded: a hundred timeouts. *)
Definition no_image : Orchestrator.Env :=
  {| Orchestrator.getFileLink := Ok tt;
     Orchestrator.source_net := [Sample.photo];
     Orchestrator.reply_received := Ok tt;
     Orchestrator.qq_net := [Sample.success];
     Orchestrator.reply_downloading := Ok tt;
     Orchestrator.video_net := [Sample.photo];
     Orchestrator.img_net := repeat Sample.timeout 100;
     Orchestrator.send_photo := Throw (JS.External "no photo");
     Orchestrator.send_video := Ok tt;
     Orchestrator.reply_done := Ok tt;
     Orchestrator.reply_error := Ok tt |}.

Definition message : Bot.Message :=
  {| Bot.from_id := 42;
     Bot.photo := [{| Bot.file_id := "small" |}; {| Bot.file_id := "large" |}] |}.

End Fixture.

(* ===================================================================== *)
(** * Properties *)
(* ===================================================================== *)

(** ** The effect monad *)

Lemma after_pair {A} (t t' : list event) (o : Outcome A) :
  after t (t', o) = (t ++ t', o).
Proof. reflexivity. Qed.

Lemma snd_after {A} (t : list event) (m : Async A) : snd (after t m) = snd m.
Proof. reflexivity. Qed.

Lemma fst_after {A} (t : list event) (m : Async A) : fst (after t m) = t ++ fst m.
Proof. reflexivity. Qed.

Lemma after_nil {A} (m : Async A) : after [] m = m.
Proof. destruct m; reflexivity. Qed.

Lemma after_after {A} (t t' : list event) (m : Async A) :
  after t (after t' m) = after (t ++ t') m.
Proof. unfold after; simpl. now rewrite app_assoc. Qed.

Lemma bind_after {A B} (t : list event) (m : Async A) (k : A -> Async B) :
  bind (after t m) k = after t (bind m k).
Proof.
  destruct m as [t' [a | e | ]]; unfold after, bind; simpl;
    try reflexivity.
  destruct (k a) as [t'' o]; simpl. now rewrite app_assoc.
Qed.

Lemma bind_ok {A B} (t : list event) (a : A) (k : A -> Async B) :
  bind (t, Ok a) k = after t (k a).
Proof. unfold bind, after. destruct (k a); reflexivity. Qed.

Lemma snd_bind_pending {A B} (m : Async A) (k : A -> Async B) :
  snd m = Pending -> snd (bind m k) = Pending.
Proof. destruct m as [t [a | e | ]]; simpl; intros H; now try discriminate. Qed.

Lemma in_fst_bind {A B} (m : Async A) (k : A -> Async B) (ev : event) :
  In ev (fst m) -> In ev (fst (bind m k)).
Proof.
  destruct m as [t [a | e | ]]; simpl; auto.
  destruct (k a); simpl. intros; apply in_or_app; now left.
Qed.

(** ** [qqDownload] *)

Section DownloadFacts.
Import Download.

Lemma qqDownload_for_past_ceiling net retry response :
  100 <= retry -> qqDownload_for net retry response = ([], Ok response).
Proof.
  intros H. destruct net; simpl;
    (destruct (retry <? 100) eqn:E; [apply Z.ltb_lt in E; lia | reflexivity]).
Qed.

Lemma qqDownload_for_step a net retry response :
  retry < 100 ->
  qqDownload_for (a :: net) retry response =
  if JS.truthy (opt_data (response_of a))
  then (attempt_events a, Ok (response_of a))
  else after (attempt_events a) (qqDownload_for net (retry + 1) (response_of a)).
Proof.
  intros H. simpl. destruct (retry <? 100) eqn:E; [reflexivity|].
  apply Z.ltb_ge in E; lia.
Qed.

(** The loop never throws, whatever the network answers. *)
Lemma qqDownload_for_no_throw net : forall retry response e,
  snd (qqDownload_for net retry response) <> Throw e.
Proof.
  induction net as [|a net IH]; intros retry response e; simpl.
  - destruct (retry <? 100); simpl; discriminate.
  - destruct (retry <? 100); simpl; [|discriminate].
    destruct (JS.truthy _); simpl; [discriminate|]. apply IH.
Qed.

(** Attempts that fail are retried while the ceiling is not reached; the
    first attempt with a truthy body ends the loop with that response. *)
Lemma qqDownload_for_first_payload pre : forall retry response a rest,
  Forall (fun x => fails x = true) pre ->
  retry + Z.of_nat (List.length pre) < 100 ->
  fails a = false ->
  snd (qqDownload_for (pre ++ a :: rest) retry response) = Ok (response_of a).
Proof.
  induction pre as [|x pre IH]; intros retry response a rest Hpre Hlt Ha.
  - simpl in Hlt. rewrite app_nil_l, qqDownload_for_step by lia.
    unfold fails in Ha. apply negb_false_iff in Ha. now rewrite Ha.
  - inversion Hpre as [|? ? Hx Hrest]; subst.
    cbn [List.length] in Hlt. rewrite Nat2Z.inj_succ in Hlt.
    rewrite <- app_comm_cons, qqDownload_for_step by lia.
    unfold fails in Hx. apply negb_true_iff in Hx. rewrite Hx, snd_after.
    apply IH; auto. lia.
Qed.

(** A hundred failing attempts leave the loop through its condition, with the
    response of the last one. *)
Lemma qqDownload_for_exhausted pre : forall retry response rest,
  Forall (fun x => fails x = true) pre ->
  JS.truthy (opt_data response) = false ->
  retry + Z.of_nat (List.length pre) = 100 ->
  exists r, snd (qqDownload_for (pre ++ rest) retry response) = Ok r
            /\ JS.truthy (opt_data r) = false.
Proof.
  induction pre as [|x pre IH]; intros retry response rest Hpre Hr Hlen.
  - simpl in Hlen. rewrite app_nil_l, qqDownload_for_past_ceiling by lia.
    now exists response.
  - inversion Hpre as [|? ? Hx Hrest]; subst.
    cbn [List.length] in Hlen. rewrite Nat2Z.inj_succ in Hlen.
    rewrite <- app_comm_cons, qqDownload_for_step by lia.
    unfold fails in Hx. apply negb_true_iff in Hx. rewrite Hx, snd_after.
    apply IH; auto. lia.
Qed.

Lemma snd_qqDownload net :
  snd (qqDownload net) =
  match snd (qqDownload_for net 0 None) with
  | Ok r => Ok (opt_data r)
  | Throw e => Throw e
  | Pending => Pending
  end.
Proof.
  unfold qqDownload. destruct (qqDownload_for net 0 None) as [t [r | e | ]];
    reflexivity.
Qed.

End DownloadFacts.

(** The positive half of the fetch contract: [n < 100] failing attempts and
    then a resolved response with a truthy body give that body. *)
Lemma qqDownload_first_payload pre r rest :
  Forall (fun x => Download.fails x = true) pre ->
  (List.length pre < 100)%nat ->
  JS.truthy (data r) = true ->
  snd (Download.qqDownload (pre ++ Resolved r :: rest)) = Ok (data r).
Proof.
  intros Hpre Hlen Hr. rewrite snd_qqDownload.
  rewrite (qqDownload_for_first_payload pre 0 None (Resolved r) rest); auto.
  - lia.
  - unfold Download.fails; simpl. now rewrite Hr.
Qed.

(** After a hundred failing attempts the function returns, and what it
    returns is the falsy body of the last response. *)
Lemma qqDownload_exhausted pre rest :
  Forall (fun x => Download.fails x = true) pre ->
  List.length pre = 100%nat ->
  exists d, snd (Download.qqDownload (pre ++ rest)) = Ok d /\ JS.truthy d = false.
Proof.
  intros Hpre Hlen. rewrite snd_qqDownload.
  destruct (qqDownload_for_exhausted pre 0 None rest) as [r [Hr Hf]]; auto.
  - lia.
  - rewrite Hr. now exists (opt_data r).
Qed.

(** C2 (the code departs from the claim): [qqDownload] has no failure exit.
    No answer of the network makes it throw, and a hundred requests that all
    fail without a response make it return [undefined] where the claim has a
    download error. *)
Theorem qqDownload_exhaustion_is_not_an_error :
  (forall net e, snd (Download.qqDownload net) <> Throw e) /\
  snd (Download.qqDownload (repeat (Rejected None) 100)) = Ok JS.Undefined.
Proof.
  split.
  - intros net e. rewrite snd_qqDownload.
    pose proof (qqDownload_for_no_throw net 0 None) as H.
    destruct (snd (Download.qqDownload_for net 0 None)); try discriminate.
    exfalso. now apply (H e0).
  - vm_compute. reflexivity.
Qed.

(** C9: a request that is rejected with an error carrying a response whose
    body is truthy ends the loop like a success, and that body is what
    [qqDownload] returns. *)
Theorem qqDownload_returns_error_response_body pre r rest :
  Forall (fun x => Download.fails x = true) pre ->
  (List.length pre < 100)%nat ->
  JS.truthy (data r) = true ->
  snd (Download.qqDownload (pre ++ Rejected (Some r) :: rest)) = Ok (data r).
Proof.
  intros Hpre Hlen Hr. rewrite snd_qqDownload.
  rewrite (qqDownload_for_first_payload pre 0 None (Rejected (Some r)) rest); auto.
  - lia.
  - unfold Download.fails; simpl. now rewrite Hr.
Qed.

Lemma qqDownload_returns_error_response_body_witness :
  Forall (fun x => Download.fails x = true)
    [Rejected None; Resolved {| data := JS.Str "" |}]
  /\ (List.length [Rejected None; Resolved {| data := JS.Str "" |}] < 100)%nat
  /\ JS.truthy (JS.Str "<html>404 Not Found</html>") = true
  /\ snd (Download.qqDownload
         ([Rejected None; Resolved {| data := JS.Str "" |}]
          ++ Rejected (Some {| data := JS.Str "<html>404 Not Found</html>" |})
          :: [Resolved {| data := JS.Buffer [] |}]))
  = Ok (JS.Str "<html>404 Not Found</html>").
Proof.
  split; [repeat constructor|]. split; [simpl; lia|]. split; [reflexivity|].
  apply (qqDownload_returns_error_response_body
           [Rejected None; Resolved {| data := JS.Str "" |}]
           {| data := JS.Str "<html>404 Not Found</html>" |}).
  - repeat constructor.
  - simpl. lia.
  - reflexivity.
Defined.

(** ** [qqRequest] *)

Section RequestFacts.
Import Request.

Variable JSON_parse : JS.Value -> option JS.Value.

Ltac by_tests :=
  unfold only_illegal, only_rate_limit, only_no_face, only_success,
    unrecognized, retryable, consuming, payload in *;
  unfold qqRequest_body;
  repeat match goal with
         | |- context [illegal ?d] => destruct (illegal d)
         | |- context [rate_limit ?d] => destruct (rate_limit d)
         | |- context [code_1001 ?d] => destruct (code_1001 d)
         | |- context [has_extra ?d] => destruct (has_extra d)
         | H : context [illegal ?d] |- _ => destruct (illegal d)
         | H : context [rate_limit ?d] |- _ => destruct (rate_limit d)
         | H : context [code_1001 ?d] |- _ => destruct (code_1001 d)
         | H : context [has_extra ?d] |- _ => destruct (has_extra d)
         end;
  simpl in *; try discriminate; try reflexivity; try lia.

Lemma illegal_not_rate_limit d : illegal d = true -> rate_limit d = false.
Proof.
  unfold illegal, rate_limit, JS.is_str.
  destruct (JS.opt_prop d "msg"); try discriminate.
  intros H. apply String.eqb_eq in H. now subst.
Qed.


Lemma body_illegal retry a :
  illegal (payload a) = true -> qqRequest_body retry a = ([EvPost], retry, Raise censorship).
Proof. unfold payload, qqRequest_body. now intros ->. Qed.

Lemma body_only_rate_limit retry a :
  only_rate_limit a = true ->
  qqRequest_body retry a = (EvPost :: backoff, retry - 1, Continue).
Proof. intros H. by_tests. Qed.



Lemma body_unrecognized retry a :
  unrecognized a = true -> qqRequest_body retry a = ([EvPost], retry, Continue).
Proof. intros H. by_tests. Qed.

(** Every payload with the rate-limit marker takes the counter back by one
    and waits 3000 ms, whatever else it carries. *)
Lemma body_rate_limit retry a :
  rate_limit (payload a) = true ->
  fst (qqRequest_body retry a) = (EvPost :: backoff, retry - 1).
Proof.
  intros H. unfold qqRequest_body.
  destruct (illegal (opt_data (response_of a))) eqn:E.
  - apply illegal_not_rate_limit in E. unfold payload in H. congruence.
  - unfold payload in H. rewrite H.
    destruct (code_1001 _); [reflexivity|]. destruct (has_extra _); reflexivity.
Qed.

Lemma body_posts retry a : posts (fst (fst (qqRequest_body retry a))) = 1%nat.
Proof. by_tests. Qed.

Lemma qqRequest_for_past_ceiling net retry r d :
  100 <= retry -> qqRequest_for net retry r d = ([], Ok (r, d)).
Proof.
  intros H. destruct net; simpl;
    (destruct (retry <? 100) eqn:E; [apply Z.ltb_lt in E; lia | reflexivity]).
Qed.

Lemma qqRequest_for_nil retry r d :
  retry < 100 -> qqRequest_for [] retry r d = ([], Pending).
Proof.
  intros H. simpl. destruct (retry <? 100) eqn:E; [reflexivity|].
  apply Z.ltb_ge in E; lia.
Qed.

Lemma qqRequest_for_step a net retry r d :
  retry < 100 ->
  qqRequest_for (a :: net) retry r d =
  match qqRequest_body retry a with
  | (evs, _, Raise e) => (evs, Throw e)
  | (evs, _, Break) => (evs, Ok (response_of a, payload a))
  | (evs, retry', Continue) =>
      after evs (qqRequest_for net (retry' + 1) (response_of a) (payload a))
  end.
Proof.
  intros H. simpl. destruct (retry <? 100) eqn:E; [reflexivity|].
  apply Z.ltb_ge in E; lia.
Qed.

(** Below the ceiling the loop overwrites [response] and [data] before it
    reads them. *)
Lemma qqRequest_for_state net retry r d r' d' :
  retry < 100 -> qqRequest_for net retry r d = qqRequest_for net retry r' d'.
Proof.
  intros H. destruct net.
  - now rewrite !qqRequest_for_nil.
  - now rewrite !qqRequest_for_step.
Qed.

Lemma qqRequest_for_rate_limit a net retry r d :
  retry < 100 -> only_rate_limit a = true ->
  qqRequest_for (a :: net) retry r d =
  after (EvPost :: backoff) (qqRequest_for net retry (response_of a) (payload a)).
Proof.
  intros H Ha. rewrite qqRequest_for_step, body_only_rate_limit by assumption.
  now replace (retry - 1 + 1) with retry by lia.
Qed.

Lemma qqRequest_for_unrecognized a net retry r d :
  retry < 100 -> unrecognized a = true ->
  qqRequest_for (a :: net) retry r d =
  after [EvPost] (qqRequest_for net (retry + 1) (response_of a) (payload a)).
Proof.
  intros H Ha. now rewrite qqRequest_for_step, body_unrecognized by assumption.
Qed.

Lemma consumed_cons a net :
  consumed (a :: net) = ((if consuming a then 1 else 0) + consumed net)%nat.
Proof. unfold consumed. simpl. now destruct (consuming a). Qed.

Lemma only_rate_limit_not_consuming a : only_rate_limit a = true -> consuming a = false.
Proof. intros H. by_tests. Qed.

Lemma unrecognized_consuming a : unrecognized a = true -> consuming a = true.
Proof. intros H. by_tests. Qed.

Lemma only_rate_limit_marker a : only_rate_limit a = true -> rate_limit (payload a) = true.
Proof. intros H. by_tests. Qed.

Lemma unrecognized_marker a : unrecognized a = true -> rate_limit (payload a) = false.
Proof. intros H. by_tests. Qed.

(** Retryable attempts are walked through one by one: the counter advances
    by the number of those that are not rate-limited. *)
Lemma qqRequest_for_retryable pre : forall retry r d rest,
  Forall (fun a => retryable a = true) pre ->
  retry + Z.of_nat (consumed pre) < 100 ->
  qqRequest_for (pre ++ rest) retry r d =
  after (retry_events pre)
    (qqRequest_for rest (retry + Z.of_nat (consumed pre))
       (fst (state_after pre (r, d))) (snd (state_after pre (r, d)))).
Proof.
  induction pre as [|a pre IH]; intros retry r d rest Hpre Hlt.
  - simpl. unfold consumed; simpl. rewrite Z.add_0_r. now rewrite after_nil.
  - inversion Hpre as [|? ? Ha Hrest]; subst.
    rewrite consumed_cons in Hlt. rewrite consumed_cons.
    unfold retryable in Ha. apply orb_true_iff in Ha.
    rewrite <- app_comm_cons. cbn [state_after retry_events flat_map].
    destruct Ha as [Ha | Ha].
    + rewrite (only_rate_limit_not_consuming _ Ha) in *.
      rewrite (only_rate_limit_marker _ Ha).
      rewrite qqRequest_for_rate_limit by (auto; lia).
      rewrite IH by (auto; simpl in Hlt; lia).
      rewrite after_after. reflexivity.
    + rewrite (unrecognized_consuming _ Ha) in *.
      rewrite (unrecognized_marker _ Ha).
      rewrite qqRequest_for_unrecognized by (auto; lia).
      rewrite IH by (auto; lia).
      rewrite after_after.
      replace (retry + 1 + Z.of_nat (consumed pre))
        with (retry + Z.of_nat (1 + consumed pre)) by lia.
      reflexivity.
Qed.

(** A run of purely rate-limited answers leaves the counter where it was. *)
Lemma qqRequest_for_rate_limits rl : forall retry r d rest,
  Forall (fun a => only_rate_limit a = true) rl ->
  retry < 100 ->
  qqRequest_for (rl ++ rest) retry r d =
  after (rate_limit_events (List.length rl))
    (qqRequest_for rest retry
       (fst (state_after rl (r, d))) (snd (state_after rl (r, d)))).
Proof.
  induction rl as [|a rl IH]; intros retry r d rest Hrl Hlt.
  - simpl. now rewrite after_nil.
  - inversion Hrl as [|? ? Ha Hrest]; subst.
    rewrite <- app_comm_cons, qqRequest_for_rate_limit by assumption.
    rewrite IH by assumption. rewrite after_after. reflexivity.
Qed.

(** The part after the loop emits nothing. *)
Lemma fst_lift {A} (x : A + JS.Error) : fst (lift x) = [].
Proof. now destruct x. Qed.

Lemma fst_extract v : fst (extract JSON_parse v) = [].
Proof.
  unfold extract. destruct (JSON_parse v) as [extra|]; [|reflexivity].
  destruct (JS.prop extra "video_urls") as [vs|]; [|reflexivity]. simpl.
  destruct (JS.index vs 0) as [v0|]; [|reflexivity]. simpl.
  destruct (JS.prop extra "img_urls") as [ims|]; [|reflexivity]. simpl.
  destruct (JS.index ims 1) as [i1|]; reflexivity.
Qed.

Lemma fst_qqRequest_end st : fst (qqRequest_end JSON_parse st) = [].
Proof.
  destruct st as [r d]. unfold qqRequest_end.
  destruct (has_extra d); [apply fst_extract | reflexivity].
Qed.

Lemma fst_qqRequest_from net retry r d :
  fst (qqRequest_from JSON_parse net retry r d) = fst (qqRequest_for net retry r d).
Proof.
  unfold qqRequest_from, bind.
  destruct (qqRequest_for net retry r d) as [t [st | e | ]]; try reflexivity.
  pose proof (fst_qqRequest_end st) as H.
  destruct (qqRequest_end JSON_parse st) as [t' o]. simpl in *. subst.
  now rewrite app_nil_r.
Qed.

Lemma snd_bind_congr {A B} (m m' : Async A) (k : A -> Async B) :
  snd m = snd m' -> snd (bind m k) = snd (bind m' k).
Proof.
  destruct m as [t o], m' as [t' o']; simpl; intros ->.
  destruct o' as [a | e | ]; try reflexivity.
  destruct (k a); reflexivity.
Qed.

Lemma qqRequest_from_after t net retry r d :
  after t (qqRequest_from JSON_parse net retry r d) =
  bind (after t (qqRequest_for net retry r d)) (qqRequest_end JSON_parse).
Proof. unfold qqRequest_from. now rewrite bind_after. Qed.

(** The purely rate-limited answers can be struck out of the network's
    answers without changing where the loop ends. *)
Lemma qqRequest_for_without_rate_limits net : forall retry r d,
  snd (qqRequest_for net retry r d) =
  snd (qqRequest_for (without_rate_limits net) retry r d).
Proof.
  induction net as [|a net IH]; intros retry r d; [reflexivity|].
  destruct (Z.lt_ge_cases retry 100) as [Hlt | Hge].
  2: { now rewrite !qqRequest_for_past_ceiling. }
  unfold without_rate_limits. cbn [filter].
  fold (without_rate_limits net).
  destruct (only_rate_limit a) eqn:Ha; cbn [negb].
  - rewrite qqRequest_for_rate_limit, snd_after by assumption.
    rewrite IH. now rewrite (qqRequest_for_state _ retry _ _ r d).
  - rewrite !qqRequest_for_step by assumption.
    destruct (qqRequest_body retry a) as [[evs retry'] [ | | e]];
      try reflexivity.
    rewrite !snd_after. apply IH.
Qed.

(** The number of attempts that are not rate-limited, among those the loop
    has made, stays within what is left of the budget. *)
Lemma qqRequest_for_budget net : forall retry r d,
  retry <= 100 ->
  Z.of_nat (consumed (firstn (posts (fst (qqRequest_for net retry r d))) net))
  <= 100 - retry.
Proof.
  induction net as [|a net IH]; intros retry r d Hle.
  - rewrite firstn_nil. unfold consumed; cbn [filter List.length]. lia.
  - destruct (Z.lt_ge_cases retry 100) as [Hlt | Hge].
    2: { rewrite qqRequest_for_past_ceiling by assumption.
         cbn [fst posts filter List.length firstn]. unfold consumed.
         cbn [filter List.length]. lia. }
    rewrite qqRequest_for_step by assumption.
    pose proof (body_posts retry a) as Hposts.
    destruct (qqRequest_body retry a) as [[evs retry'] ex] eqn:Hbody.
    simpl in Hposts.
    destruct ex as [ | | e].
    + rewrite fst_after. unfold posts in *. rewrite filter_app, length_app, Hposts.
      cbn [Nat.add firstn]. rewrite consumed_cons.
      assert (Hr : retry' = if consuming a then retry else retry - 1).
      { revert Hbody. unfold consuming, payload, qqRequest_body.
        set (dd := opt_data (response_of a)).
        destruct (illegal dd); [discriminate|].
        destruct (rate_limit dd); destruct (code_1001 dd);
          destruct (has_extra dd); simpl; intros H; inversion H; reflexivity. }
      specialize (IH (retry' + 1) (response_of a) (payload a)).
      unfold posts in IH.
      destruct (consuming a); subst retry'.
      * specialize (IH ltac:(lia)). lia.
      * replace (retry - 1 + 1) with retry in * by lia.
        specialize (IH ltac:(lia)). lia.
    + cbn [fst]. rewrite Hposts. cbn [firstn]. rewrite consumed_cons.
      unfold consumed; cbn [filter List.length]. destruct (consuming a); lia.
    + cbn [fst]. rewrite Hposts. cbn [firstn]. rewrite consumed_cons.
      unfold consumed; cbn [filter List.length]. destruct (consuming a); lia.
Qed.

End RequestFacts.

(** C4: a rate-limited response is a free retry.  Every payload with the
    rate-limit marker takes the counter back by one and waits 3000 ms; a run
    of responses that are rate-limited and nothing else leaves the loop at
    the counter it had, however long the run is, so that alone it never ends
    the loop, neither by exhaustion nor by an error; and the client ends
    exactly as it would had those responses never been received. *)
Theorem rate_limited_responses_are_free_retries
    (JSON_parse : JS.Value -> option JS.Value)
    (rl : list attempt) (retry : Z) (r : option Response) (d : JS.Value) :
  Forall (fun a => Request.only_rate_limit a = true) rl ->
  retry < 100 ->
  Forall (fun a =>
            Request.qqRequest_body retry a =
            ([EvPost; EvLog "QQ rate limit caught"; EvSleep 3000],
             retry - 1, Request.Continue)) rl
  /\ (forall a rest,
        Request.qqRequest_from JSON_parse (rl ++ a :: rest) retry r d =
        after (Request.rate_limit_events (List.length rl))
          (Request.qqRequest_from JSON_parse (a :: rest) retry r d))
  /\ Request.qqRequest_from JSON_parse rl retry r d =
     (Request.rate_limit_events (List.length rl), Pending)
  /\ (forall net,
        snd (Request.qqRequest JSON_parse net) =
        snd (Request.qqRequest JSON_parse (Request.without_rate_limits net)))
  /\ (forall a n,
        Request.rate_limit (Request.payload a) = true ->
        fst (Request.qqRequest_body n a) =
        ([EvPost; EvLog "QQ rate limit caught"; EvSleep 3000], n - 1)).
Proof.
  intros Hrl Hlt. repeat split.
  - apply Forall_forall. intros a Ha.
    rewrite Forall_forall in Hrl. now apply body_only_rate_limit, Hrl.
  - intros a rest. unfold Request.qqRequest_from.
    rewrite qqRequest_for_rate_limits, bind_after by assumption.
    f_equal. f_equal. now apply qqRequest_for_state.
  - unfold Request.qqRequest_from.
    rewrite <- (app_nil_r rl) at 1.
    rewrite qqRequest_for_rate_limits, bind_after by assumption.
    rewrite qqRequest_for_nil by assumption.
    unfold after, bind; simpl. now rewrite app_nil_r.
  - intros net. unfold Request.qqRequest, Request.qqRequest_from.
    apply snd_bind_congr, qqRequest_for_without_rate_limits.
  - intros a n Ha. now apply body_rate_limit.
Qed.

Lemma rate_limited_responses_are_free_retries_witness :
  Forall (fun a => Request.only_rate_limit a = true)
    (repeat Sample.rate_limited 5)
  /\ 0 < 100
  /\ Request.qqRequest_from Sample.parse (repeat Sample.rate_limited 5) 0
       None JS.Undefined
     = (Request.rate_limit_events 5, Pending)
  /\ snd (Request.qqRequest Sample.parse
            (repeat Sample.rate_limited 5 ++ [Sample.success]))
     = Ok {| Request.video := JS.Str "v.mp4"; Request.img := JS.Str "out.jpg" |}.
Proof.
  assert (H : Forall (fun a => Request.only_rate_limit a = true)
                (repeat Sample.rate_limited 5)) by (repeat constructor).
  split; [exact H|]. split; [lia|].
  destruct (rate_limited_responses_are_free_retries Sample.parse
              (repeat Sample.rate_limited 5) 0 None JS.Undefined H ltac:(lia))
    as (_ & Hmore & Halone & _ & _).
  split; [exact Halone|].
  unfold Request.qqRequest. rewrite (Hmore Sample.success []). reflexivity.
Defined.

(** C5: on a success envelope the client parses the [extra] field, returns
    the video location from index 0 of [video_urls] and the image location
    from index 1 of [img_urls], and makes no further request. *)
Theorem success_envelope_gives_video_0_and_image_1
    (JSON_parse : JS.Value -> option JS.Value)
    (a : attempt) (net : list attempt) (retry : Z)
    (r : option Response) (d : JS.Value)
    (extra : JS.Value) (videos images : list JS.Value) :
  retry < 100 ->
  Request.illegal (Request.payload a) = false ->
  Request.code_1001 (Request.payload a) = false ->
  Request.has_extra (Request.payload a) = true ->
  JSON_parse (JS.opt_prop (Request.payload a) "extra") = Some extra ->
  JS.opt_prop extra "video_urls" = JS.Arr videos ->
  JS.opt_prop extra "img_urls" = JS.Arr images ->
  snd (Request.qqRequest_from JSON_parse (a :: net) retry r d) =
    Ok {| Request.video := nth 0 videos JS.Undefined;
          Request.img := nth 1 images JS.Undefined |}
  /\ Request.posts (fst (Request.qqRequest_from JSON_parse (a :: net) retry r d))
     = 1%nat.
Proof.
  intros Hlt Hill Hcode Hextra Hparse Hv Hi.
  assert (Hbody : exists evs n, Request.qqRequest_body retry a = (evs, n, Request.Break)
                                /\ Request.posts evs = 1%nat).
  { unfold Request.qqRequest_body. unfold Request.payload in *.
    rewrite Hill, Hcode, Hextra.
    destruct (Request.rate_limit _); eexists; eexists; split; reflexivity. }
  destruct Hbody as (evs & n & Hbody & Hposts).
  unfold Request.qqRequest_from.
  rewrite qqRequest_for_step, Hbody by assumption.
  rewrite bind_ok. unfold Request.qqRequest_end. rewrite Hextra.
  unfold Request.extract. rewrite Hparse.
  assert (Hp : forall name items, JS.opt_prop extra name = JS.Arr items ->
                                  JS.prop extra name = inl (JS.Arr items)).
  { intros name items H. unfold JS.prop. destruct extra; simpl in H;
      try discriminate. now rewrite <- H. }
  rewrite (Hp _ _ Hv), (Hp _ _ Hi). simpl.
  split; [reflexivity|]. now rewrite app_nil_r.
Qed.

Lemma success_envelope_gives_video_0_and_image_1_witness :
  0 < 100
  /\ Request.illegal (Request.payload Sample.success) = false
  /\ Request.code_1001 (Request.payload Sample.success) = false
  /\ Request.has_extra (Request.payload Sample.success) = true
  /\ snd (Request.qqRequest Sample.parse [Sample.success; Sample.busy]) =
     Ok {| Request.video := JS.Str "v.mp4"; Request.img := JS.Str "out.jpg" |}.
Proof.
  repeat (split; [first [lia | reflexivity]|]).
  exact (proj1 (success_envelope_gives_video_0_and_image_1 Sample.parse
                  Sample.success [Sample.busy] 0 None JS.Undefined
                  (JS.Obj [("video_urls", JS.Arr [JS.Str "v.mp4"]);
                           ("img_urls", JS.Arr [JS.Str "ignored"; JS.Str "out.jpg"])])
                  [JS.Str "v.mp4"] [JS.Str "ignored"; JS.Str "out.jpg"]
                  ltac:(lia) eq_refl eq_refl eq_refl eq_refl eq_refl eq_refl)).
Defined.



(** C7, as stated, fails when the last attempt gets no response: after
    ninety-nine unrecognized payloads and one timeout the budget is used up,
    the last payload received is that of the ninety-ninth attempt, and the
    error carries the stringified [undefined] instead. *)
Lemma exhaustion_after_timeout_carries_no_payload :
  opt_data (Trace.last_received (repeat Sample.busy 99 ++ [Sample.timeout]))
    = JS.Obj [("code", JS.Num 500); ("msg", JS.Str "SERVER_BUSY")]
  /\ snd (Request.qqRequest Sample.parse
            (repeat Sample.busy 99 ++ [Sample.timeout]))
     = Throw (JS.Err (JS.Stringified JS.Undefined))
  /\ snd (Request.qqRequest Sample.parse
            (repeat Sample.busy 99 ++ [Sample.timeout]))
     <> Throw (JS.Err (JS.Stringified
                 (opt_data (Trace.last_received
                              (repeat Sample.busy 99 ++ [Sample.timeout]))))).
Proof.
  split; [vm_compute; reflexivity|].
  split; [vm_compute; reflexivity|].
  vm_compute. discriminate.
Qed.

(** C7, amended: the client makes at most a hundred attempts that are not
    rate-limited; and when the hundredth of them is neither a success nor a
    terminal rejection, it fails with an error whose message is the
    stringified body of the response to that last attempt: the raw payload
    when the attempt got a response, [undefined] when it got none. *)
Theorem qqRequest_attempt_ceiling
    (JSON_parse : JS.Value -> option JS.Value) :
  (forall net,
      (Request.consumed
         (firstn (Request.posts (fst (Request.qqRequest JSON_parse net))) net)
       <= 100)%nat)
  /\ (forall pre a rest,
        Forall (fun x => Request.retryable x = true) pre ->
        Request.unrecognized a = true ->
        Request.consumed pre = 99%nat ->
        Request.qqRequest JSON_parse (pre ++ a :: rest) =
        (Request.retry_events pre ++ [EvPost],
         Throw (JS.Err (JS.Stringified (opt_data (response_of a))))))
  /\ (forall pre r rest,
        Forall (fun x => Request.retryable x = true) pre ->
        Request.unrecognized (Resolved r) = true ->
        Request.consumed pre = 99%nat ->
        snd (Request.qqRequest JSON_parse (pre ++ Resolved r :: rest)) =
        Throw (JS.Err (JS.Stringified (data r))))
  /\ (forall pre rest,
        Forall (fun x => Request.retryable x = true) pre ->
        Request.consumed pre = 99%nat ->
        snd (Request.qqRequest JSON_parse (pre ++ Rejected None :: rest)) =
        Throw (JS.Err (JS.Stringified JS.Undefined))).
Proof.
  assert (Hlast : forall pre a rest,
             Forall (fun x => Request.retryable x = true) pre ->
             Request.unrecognized a = true ->
             Request.consumed pre = 99%nat ->
             Request.qqRequest JSON_parse (pre ++ a :: rest) =
             (Request.retry_events pre ++ [EvPost],
              Throw (JS.Err (JS.Stringified (opt_data (response_of a)))))).
  { intros pre a rest Hpre Ha Hn.
    unfold Request.qqRequest, Request.qqRequest_from.
    rewrite qqRequest_for_retryable by (auto; lia).
    rewrite qqRequest_for_unrecognized by (auto; lia).
    rewrite qqRequest_for_past_ceiling by lia.
    rewrite after_pair, after_pair, bind_ok. unfold Request.qqRequest_end.
    assert (He : Request.has_extra (Request.payload a) = false).
    { unfold Request.unrecognized in Ha.
      destruct (Request.has_extra _); [|reflexivity].
      rewrite !andb_false_r in Ha. discriminate. }
    rewrite He. unfold throw, after; simpl. now rewrite !app_nil_r. }
  split; [|split; [|split]].
  - intros net. unfold Request.qqRequest. rewrite fst_qqRequest_from.
    pose proof (qqRequest_for_budget net 0 None JS.Undefined ltac:(lia)). lia.
  - exact Hlast.
  - intros pre r rest Hpre Hr Hn. now rewrite (Hlast pre (Resolved r) rest).
  - intros pre rest Hpre Hn.
    now rewrite (Hlast pre (Rejected None) rest Hpre eq_refl Hn).
Qed.

Lemma qqRequest_attempt_ceiling_witness :
  Forall (fun x => Request.retryable x = true)
    (repeat Sample.timeout 60 ++ Sample.rate_limited :: repeat Sample.busy 39)
  /\ Request.unrecognized Sample.busy = true
  /\ Request.consumed
       (repeat Sample.timeout 60 ++ Sample.rate_limited :: repeat Sample.busy 39)
     = 99%nat
  /\ snd (Request.qqRequest Sample.parse
            ((repeat Sample.timeout 60 ++ Sample.rate_limited :: repeat Sample.busy 39)
             ++ Sample.busy :: [Sample.success]))
     = Throw (JS.Err (JS.Stringified
                (JS.Obj [("code", JS.Num 500); ("msg", JS.Str "SERVER_BUSY")]))).
Proof.
  assert (H : Forall (fun x => Request.retryable x = true)
                (repeat Sample.timeout 60 ++ Sample.rate_limited
                 :: repeat Sample.busy 39)) by (repeat constructor).
  split; [exact H|]. split; [reflexivity|]. split; [reflexivity|].
  rewrite (proj1 (proj2 (qqRequest_attempt_ceiling Sample.parse)) _ Sample.busy
             [Sample.success] H eq_refl eq_refl).
  reflexivity.
Defined.

(** ** The session list *)

Section RegistryFacts.
Import Registry.

Lemma find_none u sessions :
  find u sessions = None <-> ~ In u (map userId sessions).
Proof.
  induction sessions as [|s rest IH]; simpl.
  - split; auto.
  - destruct (userId s =? u) eqn:E.
    + apply Z.eqb_eq in E. split; [discriminate|]. intros H. exfalso. auto.
    + apply Z.eqb_neq in E. rewrite IH. split.
      * intros H [H' | H']; auto.
      * intros H H'. auto.
Qed.

Lemma findIndex_lower u sessions : -1 <= findIndex u sessions.
Proof.
  induction sessions as [|s rest IH]; simpl; [lia|].
  destruct (userId s =? u); [lia|].
  destruct (findIndex u rest <? 0); lia.
Qed.

Lemma findIndex_absent u sessions :
  ~ In u (map userId sessions) -> findIndex u sessions = -1.
Proof.
  induction sessions as [|s rest IH]; simpl; intros H; [reflexivity|].
  destruct (userId s =? u) eqn:E.
  - apply Z.eqb_eq in E. exfalso. auto.
  - rewrite IH by auto. reflexivity.
Qed.

Lemma findIndex_present u sessions :
  In u (map userId sessions) -> 0 <= findIndex u sessions.
Proof.
  induction sessions as [|s rest IH]; simpl; intros H; [contradiction|].
  destruct (userId s =? u) eqn:E; [lia|].
  apply Z.eqb_neq in E. destruct H as [H | H]; [contradiction|].
  specialize (IH H). destruct (findIndex u rest <? 0) eqn:F; [|lia].
  apply Z.ltb_lt in F. lia.
Qed.

Lemma splice_cons {A} (x : A) (l : list A) (i : Z) :
  0 <= i -> splice (i + 1) 1 (x :: l) = x :: splice i 1 l.
Proof.
  intros Hi. unfold splice. cbn [List.length]. rewrite Nat2Z.inj_succ.
  set (len := Z.of_nat (List.length l)).
  assert (Hlen : 0 <= len) by (unfold len; lia).
  destruct (i + 1 <? 0) eqn:E1; [apply Z.ltb_lt in E1; lia|].
  destruct (i <? 0) eqn:E2; [apply Z.ltb_lt in E2; lia|].
  replace (Z.min (i + 1) (Z.succ len)) with (Z.min i len + 1) by lia.
  replace (Z.succ len - (Z.min i len + 1)) with (len - Z.min i len) by lia.
  set (from := Z.min i len). set (count := Z.min (Z.max 1 0) (len - from)).
  assert (Hfrom : 0 <= from) by (unfold from; lia).
  assert (Hcount : 0 <= count) by (unfold count, from; lia).
  replace (Z.to_nat (from + 1)) with (S (Z.to_nat from)) by lia.
  replace (Z.to_nat (from + 1 + count)) with (S (Z.to_nat (from + count))) by lia.
  reflexivity.
Qed.

Lemma splice_first {A} (x : A) (l : list A) : splice 0 1 (x :: l) = l.
Proof.
  unfold splice. cbn [List.length]. rewrite Nat2Z.inj_succ.
  set (len := Z.of_nat (List.length l)).
  assert (Hlen : 0 <= len) by (unfold len; lia).
  replace (if 0 <? 0 then Z.max (Z.succ len + 0) 0 else Z.min 0 (Z.succ len))
    with 0 by (cbn; lia).
  replace (0 + Z.min (Z.max 1 0) (Z.succ len - 0)) with 1 by lia.
  reflexivity.
Qed.

(** With an entry of the user in the list, lines 175-176 remove the first
    such entry and nothing else. *)
Lemma releaseSession_present u sessions :
  In u (map userId sessions) ->
  releaseSession u sessions = remove_first u sessions.
Proof.
  unfold releaseSession.
  induction sessions as [|s rest IH]; intros H; [contradiction|].
  cbn [findIndex remove_first]. destruct (userId s =? u) eqn:E.
  - apply splice_first.
  - apply Z.eqb_neq in E. destruct H as [H | H]; [contradiction|].
    pose proof (findIndex_present u rest H) as Hi.
    destruct (findIndex u rest <? 0) eqn:F; [apply Z.ltb_lt in F; lia|].
    rewrite splice_cons by assumption. now rewrite IH.
Qed.

(** Without one, [findIndex] is [-1] and [splice(-1, 1)] removes the last
    entry of the list, whoever owns it. *)
Lemma releaseSession_absent u sessions :
  ~ In u (map userId sessions) ->
  releaseSession u sessions = removelast sessions.
Proof.
  intros H. unfold releaseSession. rewrite findIndex_absent by assumption.
  unfold splice. destruct sessions as [|s rest]; [reflexivity|].
  set (l := s :: rest).
  assert (Hl : (1 <= List.length l)%nat) by (unfold l; simpl; lia).
  replace (if -1 <? 0 then Z.max (Z.of_nat (List.length l) + -1) 0
           else Z.min (-1) (Z.of_nat (List.length l)))
    with (Z.of_nat (List.length l - 1)) by (cbn [Z.ltb Z.compare]; lia).
  replace (Z.of_nat (List.length l - 1)
           + Z.min (Z.max 1 0) (Z.of_nat (List.length l)
                                - Z.of_nat (List.length l - 1)))
    with (Z.of_nat (List.length l)) by lia.
  rewrite !Nat2Z.id, skipn_all, app_nil_r.
  rewrite removelast_firstn_len. f_equal. lia.
Qed.

Lemma map_remove_first u sessions :
  map userId (remove_first u sessions) = remove_one u (map userId sessions).
Proof.
  induction sessions as [|s rest IH]; simpl; [reflexivity|].
  destruct (userId s =? u); simpl; congruence.
Qed.

Lemma remove_one_in u v l :
  NoDup l -> (In v (remove_one u l) <-> In v l /\ v <> u).
Proof.
  induction 1 as [|x l Hx Hl IH]; simpl.
  - tauto.
  - destruct (x =? u) eqn:E.
    + apply Z.eqb_eq in E. subst x. split.
      * intros H. split; [now right|]. intros ->. contradiction.
      * intros [[H | H] Hne]; [congruence | assumption].
    + apply Z.eqb_neq in E. simpl. rewrite IH. split.
      * intros [H | [H Hne]]; [subst; auto | auto].
      * intros [[H | H] Hne]; auto.
Qed.

Lemma remove_one_nodup u l : NoDup l -> NoDup (remove_one u l).
Proof.
  induction 1 as [|x l Hx Hl IH]; simpl; [constructor|].
  destruct (x =? u) eqn:E; [assumption|].
  constructor; [|assumption].
  intros H. apply remove_one_in in H; tauto.
Qed.

Lemma mem_in u l : mem u l = true <-> In u l.
Proof.
  unfold mem. rewrite existsb_exists. split.
  - intros [x [Hx E]]. apply Z.eqb_eq in E. now subst.
  - intros H. exists u. split; [assumption | apply Z.eqb_refl].
Qed.

Lemma entries_absent u sessions :
  ~ In u (map userId sessions) -> entries u sessions = [].
Proof.
  induction sessions as [|s rest IH]; simpl; intros H; [reflexivity|].
  destruct (userId s =? u) eqn:E.
  - apply Z.eqb_eq in E. exfalso; auto.
  - apply IH. auto.
Qed.

Lemma entries_present u sessions :
  In u (map userId sessions) -> entries u sessions <> [].
Proof.
  induction sessions as [|s rest IH]; simpl; intros H; [contradiction|].
  destruct (userId s =? u) eqn:E; [discriminate|].
  apply Z.eqb_neq in E. destruct H; [contradiction | auto].
Qed.

Lemma entries_at_most_one u sessions :
  NoDup (map userId sessions) -> (List.length (entries u sessions) <= 1)%nat.
Proof.
  induction sessions as [|s rest IH]; simpl; intros H; [lia|].
  inversion H as [|? ? Hs Hrest]; subst.
  destruct (userId s =? u) eqn:E.
  - apply Z.eqb_eq in E. subst u. rewrite entries_absent by assumption.
    simpl; lia.
  - auto.
Qed.

Lemma entries_remove_first_other u v sessions :
  v <> u -> entries v (remove_first u sessions) = entries v sessions.
Proof.
  intros Hne. induction sessions as [|s rest IH]; simpl; [reflexivity|].
  destruct (userId s =? u) eqn:E.
  - apply Z.eqb_eq in E. destruct (userId s =? v) eqn:F; [|reflexivity].
    apply Z.eqb_eq in F. congruence.
  - simpl. now rewrite IH.
Qed.

Lemma length_remove_first u sessions :
  In u (map userId sessions) ->
  S (List.length (remove_first u sessions)) = List.length sessions.
Proof.
  induction sessions as [|s rest IH]; simpl; intros H; [contradiction|].
  destruct (userId s =? u) eqn:E; [reflexivity|].
  apply Z.eqb_neq in E. destruct H; [contradiction|]. simpl. now rewrite IH.
Qed.

(** Every step of the bot keeps the state consistent. *)
Lemma exec_consistent st a st' :
  consistent st -> exec st a = Some st' -> consistent st'.
Proof.
  intros (Hids & Hrun & Hiff) Hexec. destruct a as [u p c | u]; simpl in Hexec.
  - unfold addUserSession in Hexec.
    destruct (find u (userSessions st)) eqn:F.
    + inversion Hexec; subst. now destruct st.
    + inversion Hexec; subst; clear Hexec. apply find_none in F.
      unfold consistent; cbn [userSessions running].
      rewrite map_app. cbn [map]. repeat split.
      * apply NoDup_app; repeat split; auto.
        -- constructor; [intros []|constructor].
        -- intros x Hx [<- | []]. contradiction.
      * constructor; [|assumption]. now rewrite Hiff.
      * intros [<- | H]; apply in_or_app; [right; now left|].
        left. now apply Hiff.
      * intros H. apply in_app_or in H. destruct H as [H | [<- | []]].
        -- right. now apply Hiff.
        -- now left.
  - destruct (mem u (running st)) eqn:M; [|discriminate].
    inversion Hexec; subst; clear Hexec.
    apply mem_in in M. pose proof (proj1 (Hiff u) M) as Hin.
    unfold consistent; cbn [userSessions running].
    rewrite releaseSession_present by assumption.
    rewrite map_remove_first. repeat split.
    + now apply remove_one_nodup.
    + now apply remove_one_nodup.
    + intros H. apply remove_one_in in H; [|assumption].
      apply remove_one_in; [assumption|]. now rewrite <- Hiff.
    + intros H. apply remove_one_in in H; [|assumption].
      apply remove_one_in; [assumption|]. now rewrite Hiff.
Qed.

Lemma reachable_consistent st : reachable st -> consistent st.
Proof.
  induction 1 as [|st a st' Hreach IH Hexec].
  - unfold consistent, initial; simpl. repeat split; auto using NoDup_nil.
  - eapply exec_consistent; eauto.
Qed.

(** In a reachable state, the release of a user whose run is under way
    removes that user's entry and no other. *)
Lemma release_of_running_user st u :
  reachable st -> In u (running st) ->
  entries u (releaseSession u (userSessions st)) = []
  /\ (forall v, v <> u ->
        entries v (releaseSession u (userSessions st)) = entries v (userSessions st))
  /\ S (List.length (releaseSession u (userSessions st)))
     = List.length (userSessions st).
Proof.
  intros Hreach Hin.
  destruct (reachable_consistent st Hreach) as (Hids & Hr & Hiff).
  apply Hiff in Hin. rewrite releaseSession_present by assumption.
  repeat split.
  - apply entries_absent. rewrite map_remove_first.
    intros H. apply remove_one_in in H; tauto.
  - intros v Hv. now apply entries_remove_first_other.
  - now apply length_remove_first.
Qed.

End RegistryFacts.

(** C1: single flight per user.  In every state the bot can reach, a user
    has at most one entry in the session list and has one exactly while a run
    of theirs is under way; while it is, a further photo of that user is
    turned away with the notice and leaves the list as it is; and once that
    run has executed its release, the user has no entry and the next photo is
    admitted. *)
Theorem single_flight_per_user (st : Registry.System) :
  Registry.reachable st ->
  forall (u : Z) (p : string) (c : Context),
    (List.length (Registry.entries u (Registry.userSessions st)) <= 1)%nat
    /\ (In u (Registry.running st) <->
        Registry.entries u (Registry.userSessions st) <> [])
    /\ (In u (Registry.running st) ->
        Registry.addUserSession u p c (Registry.userSessions st) =
          ([EvReply "You are already in the queue, please wait"], None,
           Registry.userSessions st)
        /\ Registry.exec st (Registry.Photo u p c) = Some st
        /\ exists st',
             Registry.exec st (Registry.Finish u) = Some st'
             /\ Registry.entries u (Registry.userSessions st') = []
             /\ ~ In u (Registry.running st')
             /\ Registry.addUserSession u p c (Registry.userSessions st') =
                  ([EvLog "Sessions length increased"],
                   Some {| userId := u; photoId := p; ctx := c |},
                   Registry.userSessions st'
                   ++ [{| userId := u; photoId := p; ctx := c |}])).
Proof.
  intros Hreach u p c.
  pose proof (reachable_consistent st Hreach) as Hcons.
  destruct Hcons as (Hids & Hrun & Hiff).
  split; [now apply entries_at_most_one|]. split.
  - rewrite Hiff. split; [apply entries_present|].
    intros H. destruct (in_dec Z.eq_dec u (map userId (Registry.userSessions st)))
      as [Hin | Hout]; [assumption|].
    exfalso. apply H. now apply entries_absent.
  - intros Hin.
    assert (Hfind : exists s, Registry.find u (Registry.userSessions st) = Some s).
    { destruct (Registry.find u (Registry.userSessions st)) eqn:F; eauto.
      apply find_none in F. exfalso. apply F. now apply Hiff. }
    destruct Hfind as [s Hfind].
    assert (Hadd : Registry.addUserSession u p c (Registry.userSessions st) =
                   ([EvReply "You are already in the queue, please wait"], None,
                    Registry.userSessions st)).
    { unfold Registry.addUserSession. now rewrite Hfind. }
    split; [exact Hadd|]. split.
    { simpl. rewrite Hadd. now destruct st. }
    eexists. split.
    { simpl. rewrite (proj2 (mem_in u (Registry.running st)) Hin). reflexivity. }
    pose proof (exec_consistent st (Registry.Finish u) _
                  (conj Hids (conj Hrun Hiff))
                  ltac:(simpl; rewrite (proj2 (mem_in u (Registry.running st)) Hin);
                        reflexivity)) as (Hids' & Hrun' & Hiff').
    cbn [Registry.userSessions Registry.running] in *.
    assert (Hgone : ~ In u (Registry.remove_one u (Registry.running st))).
    { intros H. apply remove_one_in in H; tauto. }
    assert (Hout : ~ In u (map userId
                             (Registry.releaseSession u (Registry.userSessions st)))).
    { now rewrite <- Hiff'. }
    split; [now apply entries_absent|]. split; [assumption|].
    unfold Registry.addUserSession.
    now rewrite (proj2 (find_none u _) Hout).
Qed.

Lemma single_flight_per_user_witness :
  Registry.reachable Sample.one_running
  /\ In 42 (Registry.running Sample.one_running)
  /\ Registry.addUserSession 42 "again" O
       (Registry.userSessions Sample.one_running) =
     ([EvReply "You are already in the queue, please wait"], None,
      [Sample.session 42]).
Proof.
  assert (H : Registry.reachable Sample.one_running).
  { exact (Registry.reach_step Registry.initial (Registry.Photo 42 "photo" O)
             Sample.one_running Registry.reach_initial eq_refl). }
  split; [exact H|]. split; [now left|].
  exact (proj1 (proj2 (proj2 (single_flight_per_user Sample.one_running H
                                42 "again" O)) (or_introl eq_refl))).
Defined.

(** Lines 175-176 on a list without an entry of the user, on concrete
    lists: [findIndex] gives [-1] and [splice(-1, 1)] removes the last
    entry. *)
Lemma release_of_absent_user_removes_last_entry :
  Registry.releaseSession 2 [Sample.session 1] = []
  /\ Registry.releaseSession 1 [Sample.session 1; Sample.session 2]
     = [Sample.session 2]
  /\ Registry.releaseSession 1
       (Registry.releaseSession 1 [Sample.session 1; Sample.session 2])
     = [].
Proof. repeat split. Qed.




(** ** One run *)

Section RunFacts.
Import Orchestrator.

Variable JSON_parse : JS.Value -> option JS.Value.
Variable KEEP_FILES : bool.

Lemma snd_bind_ok {A B} (m : Async A) (k : A -> Async B) t a :
  m = (t, Ok a) -> snd (bind m k) = snd (k a).
Proof. intros ->. simpl. now destruct (k a). Qed.

Lemma in_fst_bind_ok {A B} (m : Async A) (k : A -> Async B) t a ev :
  m = (t, Ok a) -> In ev (fst (k a)) -> In ev (fst (bind m k)).
Proof.
  intros -> H. simpl. destruct (k a); simpl in *. apply in_or_app. now right.
Qed.

Lemma source_for_past_ceiling net retry response :
  100 <= retry -> source_for net retry response = ([], Ok response).
Proof.
  intros H. destruct net; simpl;
    (destruct (retry <? 100) eqn:E; [apply Z.ltb_lt in E; lia | reflexivity]).
Qed.

Lemma source_for_nil retry response :
  retry < 100 -> source_for [] retry response = ([], Pending).
Proof.
  intros H. simpl. destruct (retry <? 100) eqn:E; [reflexivity|].
  apply Z.ltb_ge in E; lia.
Qed.

Lemma source_for_step a net retry response :
  retry < 100 ->
  source_for (a :: net) retry response =
  let response' := match a with
                   | Resolved r => Some r
                   | Rejected _ => response
                   end in
  if JS.truthy (opt_data response')
  then ([EvGet], Ok response')
  else after [EvGet] (source_for net (retry + 1) response').
Proof.
  intros H. simpl. destruct (retry <? 100) eqn:E; [reflexivity|].
  apply Z.ltb_ge in E; lia.
Qed.

(** Responses without a body are asked for again, and the last of them is
    what the loop is left with. *)
Lemma source_for_empty_bodies pre : forall retry response r rest,
  Forall (fun a => resolved_empty a = true) pre ->
  retry + Z.of_nat (List.length pre) < 100 ->
  JS.truthy (data r) = false ->
  source_for (pre ++ Resolved r :: rest) retry response =
  after (repeat EvGet (S (List.length pre)))
    (source_for rest (retry + Z.of_nat (List.length pre) + 1) (Some r)).
Proof.
  induction pre as [|a pre IH]; intros retry response r rest Hpre Hlt Hr.
  - cbn [List.length app repeat]. rewrite source_for_step by (simpl in Hlt; lia).
    cbn [opt_data]. rewrite Hr. now rewrite Z.add_0_r.
  - inversion Hpre as [|? ? Ha Hrest]; subst.
    cbn [List.length] in *. rewrite Nat2Z.inj_succ in *.
    rewrite <- app_comm_cons, source_for_step by lia.
    destruct a as [r0 | ]; [|discriminate]. cbn [resolved_empty] in Ha.
    apply negb_true_iff in Ha. cbn [opt_data]. rewrite Ha.
    rewrite IH by (auto; lia). rewrite after_after.
    replace (retry + 1 + Z.of_nat (List.length pre) + 1)
      with (retry + Z.succ (Z.of_nat (List.length pre)) + 1) by lia.
    reflexivity.
Qed.

(** The guard throws exactly when the loop has run its hundred requests and
    none of them resolved. *)
Lemma source_guard_throws net : forall retry response,
  retry <= 100 ->
  (snd (bind (source_for net retry response) source_guard) = Throw load_failed
   <-> response = None
       /\ (Z.to_nat (100 - retry) <= List.length net)%nat
       /\ Forall (fun a => is_rejected a = true)
            (firstn (Z.to_nat (100 - retry)) net)).
Proof.
  induction net as [|a net IH]; intros retry response Hle.
  - destruct (Z.lt_ge_cases retry 100) as [Hlt | Hge].
    + rewrite source_for_nil, snd_bind_pending by (assumption || reflexivity).
      split; [discriminate|].
      intros (_ & H & _). cbn [List.length] in H. lia.
    + rewrite source_for_past_ceiling by assumption.
      replace (Z.to_nat (100 - retry)) with O by lia.
      destruct response; simpl; split; try discriminate; try tauto.
      * intros (H & _). discriminate.
      * intros _. repeat split; auto.
  - destruct (Z.lt_ge_cases retry 100) as [Hlt | Hge].
    2: { rewrite source_for_past_ceiling by assumption.
         replace (Z.to_nat (100 - retry)) with O by lia.
         destruct response; simpl; split; try discriminate; try tauto.
         - intros (H & _). discriminate.
         - intros _. repeat split; auto. lia. }
    rewrite source_for_step by assumption.
    replace (Z.to_nat (100 - retry)) with (S (Z.to_nat (100 - (retry + 1)))) by lia.
    cbn [firstn List.length]. cbv zeta.
    destruct a as [r | e].
    + destruct (JS.truthy (opt_data (Some r))).
      * simpl. split; [discriminate|]. intros (_ & _ & H).
        inversion H; discriminate.
      * rewrite bind_after, snd_after, IH by lia. split.
        -- intros (H & _). discriminate.
        -- intros (_ & _ & H). inversion H; discriminate.
    + destruct (JS.truthy (opt_data response)) eqn:T.
      * destruct response as [r|]; [|discriminate]. simpl.
        split; [discriminate|]. intros (H & _). discriminate.
      * rewrite bind_after, snd_after, IH by lia. split.
        -- intros (H1 & H2 & H3). repeat split; auto. lia.
        -- intros (H1 & H2 & H3). inversion H3; subst. repeat split; auto. lia.
Qed.

(** No part of the body of the [try] touches the session list. *)
Lemma releases_app t t' : releases (t ++ t') = (releases t + releases t')%nat.
Proof. unfold releases. now rewrite filter_app, length_app. Qed.

Lemma quiet_bind {A B} (m : Async A) (k : A -> Async B) :
  releases (fst m) = O -> (forall a, releases (fst (k a)) = O) ->
  releases (fst (bind m k)) = O.
Proof.
  destruct m as [t [a | e | ]]; simpl; intros Hm Hk; auto.
  specialize (Hk a). destruct (k a); simpl in *.
  rewrite releases_app. lia.
Qed.

Lemma quiet_after {A} t (m : Async A) :
  releases t = O -> releases (fst m) = O -> releases (fst (after t m)) = O.
Proof. intros Ht Hm. rewrite fst_after, releases_app. lia. Qed.

Lemma quiet_all2 {A B} (a : Async A) (b : Async B) :
  releases (fst a) = O -> releases (fst b) = O -> releases (fst (all2 a b)) = O.
Proof. intros Ha Hb. unfold all2; simpl. rewrite releases_app. lia. Qed.

Lemma quiet_lift {A} (x : A + JS.Error) : releases (fst (Request.lift x)) = O.
Proof. now destruct x. Qed.

Lemma quiet_source_for net : forall retry response,
  releases (fst (source_for net retry response)) = O.
Proof.
  induction net as [|a net IH]; intros retry response; simpl.
  - now destruct (retry <? 100).
  - destruct (retry <? 100); [|reflexivity].
    destruct (JS.truthy _); [reflexivity|]. now apply quiet_after.
Qed.

Lemma quiet_qqDownload net : releases (fst (Download.qqDownload net)) = O.
Proof.
  unfold Download.qqDownload. apply quiet_bind; [|reflexivity].
  generalize 0 (@None Response).
  induction net as [|a net IH]; intros retry response; simpl.
  - now destruct (retry <? 100).
  - destruct (retry <? 100); [|reflexivity].
    destruct (JS.truthy _); [now destruct a|].
    apply quiet_after; [now destruct a | apply IH].
Qed.

Lemma quiet_qqRequest net : releases (fst (Request.qqRequest JSON_parse net)) = O.
Proof.
  unfold Request.qqRequest. rewrite fst_qqRequest_from.
  generalize 0 (@None Response) JS.Undefined.
  induction net as [|a net IH]; intros retry response d; simpl.
  - now destruct (retry <? 100).
  - destruct (retry <? 100); [|reflexivity].
    assert (Hq : releases (fst (fst (Request.qqRequest_body retry a))) = O).
    { unfold Request.qqRequest_body.
      destruct (Request.illegal _); [reflexivity|].
      destruct (Request.rate_limit _), (Request.code_1001 _);
        try reflexivity; destruct (Request.has_extra _); reflexivity. }
    destruct (Request.qqRequest_body retry a) as [[evs n] [ | | e]];
      simpl in Hq; try assumption.
    now apply quiet_after.
Qed.

Lemma quiet_try env :
  releases (fst (processUserSession_try JSON_parse KEEP_FILES env)) = O.
Proof.
  unfold processUserSession_try, keep, await, source_guard.
  repeat first
    [ reflexivity
    | apply quiet_source_for
    | apply quiet_qqRequest
    | apply quiet_qqDownload
    | apply quiet_lift
    | apply quiet_all2
    | apply quiet_bind; [|intros ?]
    | match goal with
      | |- context [if KEEP_FILES then _ else _] => destruct KEEP_FILES
      | |- context [match ?x with Some _ => _ | None => _ end] => destruct x
      end ].
Qed.

End RunFacts.

(** C8: every way out of a run goes through the release.  No exception
    leaves the run; as soon as the body of the [try] has ended, normally or
    by any exception, the run ends with lines 175-176 executed once, as its
    last act on the list; an exception of the body becomes one error notice,
    and the run is the same however the promise of that notice settles.  On
    the list of a reachable state in which the user's run is under way, the
    release removes that user's entry and no other. *)
Theorem every_exit_path_releases_the_session
    (JSON_parse : JS.Value -> option JS.Value) (KEEP_FILES : bool)
    (env : Orchestrator.Env) (s : UserSession) (sessions : list UserSession) :
  let body := Orchestrator.processUserSession_try JSON_parse KEEP_FILES env in
  let run := Orchestrator.processUserSession JSON_parse KEEP_FILES env s sessions in
  let released := Registry.releaseSession (userId s) sessions in
  (forall e, snd run <> Throw e)
  /\ (snd body = Pending -> run = (fst body, Pending))
  /\ (snd body = Ok tt ->
      run = (fst body
             ++ [EvRelease (userId s); EvLog "Sessions length decreased"],
             Ok released))
  /\ (forall e, snd body = Throw e ->
      run = (fst body
             ++ [EvErrorNotice e; EvLog "Error has occurred";
                 EvLog "console.error";
                 EvRelease (userId s); EvLog "Sessions length decreased"],
             Ok released))
  /\ (snd body <> Pending -> Orchestrator.releases (fst run) = 1%nat)
  /\ (forall o,
        Orchestrator.processUserSession JSON_parse KEEP_FILES
          (Orchestrator.with_reply_error o env) s sessions = run)
  /\ (forall st,
        Registry.reachable st ->
        In (userId s) (Registry.running st) ->
        sessions = Registry.userSessions st ->
        Registry.entries (userId s) released = []
        /\ (forall v, v <> userId s ->
                      Registry.entries v released = Registry.entries v sessions)
        /\ S (List.length released) = List.length sessions).
Proof.
  intros body run released.
  pose proof (quiet_try JSON_parse KEEP_FILES env) as Hquiet.
  fold body in Hquiet.
  assert (Hrun : run = bind (try_catch body (Orchestrator.processUserSession_catch env))
                         (fun _ => bind (emit (EvRelease (userId s)))
                            (fun _ => bind (emit (EvLog "Sessions length decreased"))
                               (fun _ => ret released)))) by reflexivity.
  assert (Hsame : forall o,
             Orchestrator.processUserSession JSON_parse KEEP_FILES
               (Orchestrator.with_reply_error o env) s sessions = run)
    by (intros o; reflexivity).
  assert (Hlist : forall st,
             Registry.reachable st ->
             In (userId s) (Registry.running st) ->
             sessions = Registry.userSessions st ->
             Registry.entries (userId s) released = []
             /\ (forall v, v <> userId s ->
                           Registry.entries v released = Registry.entries v sessions)
             /\ S (List.length released) = List.length sessions).
  { intros st Hreach Hin ->. unfold released.
    now apply release_of_running_user. }
  clearbody run body.
  destruct body as [t [[] | e | ]]; cbn [fst snd] in *;
    unfold try_catch, Orchestrator.processUserSession_catch,
      Orchestrator.swallowed in Hrun; simpl in Hrun.
  - split; [intros e; rewrite Hrun; discriminate|].
    split; [discriminate|].
    split; [intros _; exact Hrun|].
    split; [discriminate|].
    split; [|split; assumption].
    intros _. rewrite Hrun. cbn [fst]. rewrite releases_app, Hquiet. reflexivity.
  - rewrite <- app_assoc in Hrun. cbn [app] in Hrun.
    split; [intros e'; rewrite Hrun; discriminate|].
    split; [discriminate|].
    split; [discriminate|].
    split; [intros e' He'; injection He' as <-; exact Hrun|].
    split; [|split; assumption].
    intros _. rewrite Hrun. cbn [fst]. rewrite releases_app, Hquiet. reflexivity.
  - split; [intros e; rewrite Hrun; discriminate|].
    split; [intros _; exact Hrun|].
    split; [discriminate|].
    split; [discriminate|].
    split; [|split; assumption].
    intros H. now contradiction H.
Qed.

Lemma every_exit_path_releases_the_session_witness :
  snd (Orchestrator.processUserSession_try Sample.parse true
         (Sample.env [Sample.photo] [Sample.no_face]))
    = Throw Request.no_face
  /\ Registry.reachable Sample.one_running
  /\ In 42 (Registry.running Sample.one_running)
  /\ snd (Orchestrator.processUserSession Sample.parse true
            (Sample.env [Sample.photo] [Sample.no_face])
            (Sample.session 42) [Sample.session 42])
     = Ok []
  /\ Orchestrator.releases
       (fst (Orchestrator.processUserSession Sample.parse true
               (Sample.env [Sample.photo] [Sample.no_face])
               (Sample.session 42) [Sample.session 42]))
     = 1%nat
  /\ Registry.entries 42 (Registry.releaseSession 42 [Sample.session 42]) = [].
Proof.
  assert (Hreach : Registry.reachable Sample.one_running).
  { exact (Registry.reach_step Registry.initial (Registry.Photo 42 "photo" O)
             Sample.one_running Registry.reach_initial eq_refl). }
  destruct (every_exit_path_releases_the_session Sample.parse true
              (Sample.env [Sample.photo] [Sample.no_face])
              (Sample.session 42) [Sample.session 42])
    as (_ & _ & _ & Hthrow & Honce & _ & Hlist).
  split; [reflexivity|]. split; [exact Hreach|]. split; [now left|].
  split; [rewrite (Hthrow Request.no_face eq_refl); reflexivity|].
  split; [apply Honce; discriminate|].
  exact (proj1 (Hlist Sample.one_running Hreach (or_introl eq_refl) eq_refl)).
Defined.

(** The four kinds of exit, on concrete answers of the environment: a
    success, a terminal rejection, the exhaustion of the budget and an
    exception of the chat platform.  Each run ends with the list released. *)
Example run_success :
  snd (Orchestrator.processUserSession Sample.parse true
         (Sample.env [Sample.photo] [Sample.rate_limited; Sample.success])
         (Sample.session 42) [Sample.session 7; Sample.session 42])
  = Ok [Sample.session 7].
Proof. reflexivity. Qed.

Example run_exhausted :
  Orchestrator.processUserSession Sample.parse false
    (Sample.env [Sample.photo] (repeat Sample.timeout 100))
    (Sample.session 42) [Sample.session 42]
  = ([EvGet; EvLog "Uploading to QQ";
      EvReply "Photo has been received, uploading to QQ"]
     ++ repeat EvPost 100
     ++ [EvErrorNotice (JS.Err (JS.Stringified JS.Undefined));
         EvLog "Error has occurred"; EvLog "console.error";
         EvRelease 42; EvLog "Sessions length decreased"],
     Ok []).
Proof. vm_compute. reflexivity. Qed.

Example run_platform_failure :
  Orchestrator.processUserSession Sample.parse false
    (Orchestrator.with_reply_error Pending
       {| Orchestrator.getFileLink := Throw (JS.External "getFileLink");
          Orchestrator.source_net := [];
          Orchestrator.reply_received := Ok tt;
          Orchestrator.qq_net := [];
          Orchestrator.reply_downloading := Ok tt;
          Orchestrator.video_net := [];
          Orchestrator.img_net := [];
          Orchestrator.send_photo := Ok tt;
          Orchestrator.send_video := Ok tt;
          Orchestrator.reply_done := Ok tt;
          Orchestrator.reply_error := Ok tt |})
    (Sample.session 42) [Sample.session 42]
  = ([EvErrorNotice (JS.External "getFileLink");
      EvLog "Error has occurred"; EvLog "console.error";
      EvRelease 42; EvLog "Sessions length decreased"],
     Ok []).
Proof. reflexivity. Qed.

(** C10: the guard after the loop that loads the photo tests the response
    and not its body.  When each of the hundred requests resolved with a
    falsy body, the guard lets the last response through, the run announces
    the upload and goes on to encode the body, which for an absent body is
    the exception of the method call and not the load failure; and the load
    failure is thrown exactly when none of the hundred requests resolved. *)
Theorem source_guard_tests_only_the_response
    (JSON_parse : JS.Value -> option JS.Value) (KEEP_FILES : bool) :
  (forall env pre r rest,
      Orchestrator.getFileLink env = Ok tt ->
      Orchestrator.source_net env = pre ++ Resolved r :: rest ->
      Forall (fun a => Orchestrator.resolved_empty a = true) pre ->
      List.length pre = 99%nat ->
      JS.truthy (data r) = false ->
      bind (Orchestrator.source_for (Orchestrator.source_net env) 0 None)
        Orchestrator.source_guard
      = (repeat EvGet 100, Ok r)
      /\ In (EvReply "Photo has been received, uploading to QQ")
           (fst (Orchestrator.processUserSession_try JSON_parse KEEP_FILES env))
      /\ (forall e,
            Orchestrator.reply_received env = Ok tt ->
            JS.toString_base64 (data r) = inr e ->
            snd (Orchestrator.processUserSession_try JSON_parse KEEP_FILES env)
            = Throw e))
  /\ (forall net,
        snd (bind (Orchestrator.source_for net 0 None) Orchestrator.source_guard)
        = Throw Orchestrator.load_failed
        <-> (100 <= List.length net)%nat
            /\ Forall (fun a => Orchestrator.is_rejected a = true)
                 (firstn 100 net)).
Proof.
  split.
  - intros env pre r rest Hget Hnet Hpre Hlen Hr.
    assert (Hs : Orchestrator.source_for (Orchestrator.source_net env) 0 None
                 = (repeat EvGet 100, Ok (Some r))).
    { rewrite Hnet, source_for_empty_bodies by (auto; lia).
      rewrite source_for_past_ceiling by lia.
      rewrite Hlen, after_pair. now rewrite app_nil_r. }
    split; [rewrite Hs; reflexivity|]. split.
    + unfold Orchestrator.processUserSession_try. rewrite Hget.
      eapply in_fst_bind_ok; [reflexivity|].
      eapply in_fst_bind_ok; [exact Hs|].
      eapply in_fst_bind_ok; [reflexivity|].
      destruct KEEP_FILES.
      all: eapply in_fst_bind_ok; [reflexivity|].
      all: eapply in_fst_bind_ok; [reflexivity|].
      all: apply in_fst_bind; now left.
    + intros e Hreply He.
      unfold Orchestrator.processUserSession_try. rewrite Hget, Hreply.
      erewrite snd_bind_ok by reflexivity.
      erewrite snd_bind_ok by exact Hs.
      erewrite snd_bind_ok by reflexivity.
      destruct KEEP_FILES.
      all: do 4 (erewrite snd_bind_ok by reflexivity).
      all: rewrite He; reflexivity.
  - intros net.
    rewrite (source_guard_throws net 0 None ltac:(lia)).
    replace (Z.to_nat (100 - 0)) with 100%nat by lia.
    tauto.
Qed.

Lemma source_guard_tests_only_the_response_witness :
  Forall (fun a => Orchestrator.resolved_empty a = true)
    (repeat Sample.no_body 99)
  /\ List.length (repeat Sample.no_body 99) = 99%nat
  /\ JS.truthy JS.Undefined = false
  /\ snd (Orchestrator.processUserSession_try Sample.parse true
            (Sample.env (repeat Sample.no_body 99 ++ [Sample.no_body])
               [Sample.success]))
     = Throw JS.TypeError.
Proof.
  assert (H : Forall (fun a => Orchestrator.resolved_empty a = true)
                (repeat Sample.no_body 99)) by (repeat constructor).
  split; [exact H|]. split; [reflexivity|]. split; [reflexivity|].
  exact (proj2 (proj2 (proj1 (source_guard_tests_only_the_response Sample.parse true)
                         (Sample.env (repeat Sample.no_body 99 ++ [Sample.no_body])
                            [Sample.success])
                         (repeat Sample.no_body 99) {| data := JS.Undefined |} []
                         eq_refl eq_refl H eq_refl eq_refl))
           JS.TypeError eq_refl eq_refl).
Defined.

(* ===================================================================== *)
(** * Further properties of the code *)
(* ===================================================================== *)

(** ** [qqDownload]: what it requests and when it settles *)

Section DownloadTrace.
Import Download Trace.

Lemma gets_app t t' : gets (t ++ t') = (gets t + gets t')%nat.
Proof. unfold gets. now rewrite filter_app, length_app. Qed.

Lemma gets_attempt_events a : gets (attempt_events a) = 1%nat.
Proof. now destruct a. Qed.

Lemma gets_download_events pre : gets (download_events pre) = List.length pre.
Proof.
  induction pre as [|a pre IH]; [reflexivity|].
  unfold download_events in *. cbn [flat_map List.length].
  now rewrite gets_app, gets_attempt_events, IH.
Qed.

Lemma last_response_last pre : forall response d,
  pre <> [] -> last_response pre response = response_of (last pre d).
Proof.
  induction pre as [|a pre IH]; intros response d Hne; [contradiction|].
  destruct pre as [|b pre]; [reflexivity|].
  change (last_response (a :: b :: pre) response)
    with (last_response (b :: pre) (response_of a)).
  change (last (a :: b :: pre) d) with (last (b :: pre) d).
  apply IH. discriminate.
Qed.

(** Failing attempts are walked through one by one up to the ceiling. *)
Lemma qqDownload_for_failing pre : forall retry response rest,
  Forall (fun x => fails x = true) pre ->
  retry + Z.of_nat (List.length pre) <= 100 ->
  qqDownload_for (pre ++ rest) retry response =
  after (download_events pre)
    (qqDownload_for rest (retry + Z.of_nat (List.length pre))
       (last_response pre response)).
Proof.
  induction pre as [|x pre IH]; intros retry response rest Hpre Hle.
  - cbn [List.length app]. rewrite Z.add_0_r. now rewrite after_nil.
  - inversion Hpre as [|? ? Hx Hrest]; subst.
    cbn [List.length] in *. rewrite Nat2Z.inj_succ in *.
    rewrite <- app_comm_cons, qqDownload_for_step by lia.
    unfold fails in Hx. apply negb_true_iff in Hx. rewrite Hx.
    rewrite IH by (auto; lia). rewrite after_after.
    replace (retry + 1 + Z.of_nat (List.length pre))
      with (retry + Z.succ (Z.of_nat (List.length pre))) by lia.
    reflexivity.
Qed.

Lemma qqDownload_for_gets net : forall retry response,
  retry <= 100 ->
  Z.of_nat (gets (fst (qqDownload_for net retry response))) <= 100 - retry.
Proof.
  induction net as [|a net IH]; intros retry response Hle.
  - cbn [qqDownload_for]. destruct (retry <? 100); cbn [fst gets filter List.length]; lia.
  - destruct (Z.lt_ge_cases retry 100) as [Hlt | Hge].
    2: { rewrite qqDownload_for_past_ceiling by assumption.
         cbn [fst gets filter List.length]. lia. }
    rewrite qqDownload_for_step by assumption.
    destruct (JS.truthy _).
    + cbn [fst]. rewrite gets_attempt_events. lia.
    + rewrite fst_after, gets_app, gets_attempt_events.
      specialize (IH (retry + 1) (response_of a) ltac:(lia)). lia.
Qed.

Lemma qqDownload_for_pending net : forall retry response,
  retry <= 100 ->
  (snd (qqDownload_for net retry response) = Pending
   <-> retry + Z.of_nat (List.length net) < 100
       /\ Forall (fun x => fails x = true) net).
Proof.
  induction net as [|a net IH]; intros retry response Hle.
  - destruct (Z.lt_ge_cases retry 100) as [Hlt | Hge].
    + cbn [qqDownload_for]. destruct (retry <? 100) eqn:E;
        [|apply Z.ltb_ge in E; lia].
      cbn [snd List.length]. split; [intros _; split; [lia | constructor]|reflexivity].
    + rewrite qqDownload_for_past_ceiling by assumption. cbn [snd List.length].
      split; [discriminate | intros [H _]; lia].
  - cbn [List.length]. rewrite Nat2Z.inj_succ.
    destruct (Z.lt_ge_cases retry 100) as [Hlt | Hge].
    2: { rewrite qqDownload_for_past_ceiling by assumption. cbn [snd].
         split; [discriminate | intros [H _]; lia]. }
    rewrite qqDownload_for_step by assumption.
    destruct (JS.truthy (opt_data (response_of a))) eqn:T.
    + cbn [snd]. split; [discriminate|]. intros [_ H].
      inversion H as [|? ? Ha _]; subst. unfold fails in Ha.
      rewrite T in Ha. discriminate.
    + rewrite snd_after, IH by lia. split.
      * intros [H1 H2]. split; [lia|]. constructor; [|assumption].
        unfold fails. now rewrite T.
      * intros [H1 H2]. inversion H2; subst. split; [lia | assumption].
Qed.

End DownloadTrace.

(** X1: [qqDownload] stops at the first attempt whose response has a truthy
    body, resolved or rejected: after [n < 100] failing attempts it returns
    that body, has made [n + 1] requests, and what the network would have
    answered afterwards plays no part. *)
Theorem qqDownload_stops_at_first_payload pre a rest :
  Forall (fun x => Download.fails x = true) pre ->
  (List.length pre < 100)%nat ->
  Download.fails a = false ->
  Download.qqDownload (pre ++ a :: rest) =
    (Trace.download_events pre ++ Download.attempt_events a,
     Ok (opt_data (response_of a)))
  /\ Trace.gets (fst (Download.qqDownload (pre ++ a :: rest)))
     = S (List.length pre).
Proof.
  intros Hpre Hlen Ha.
  assert (H : Download.qqDownload (pre ++ a :: rest) =
              (Trace.download_events pre ++ Download.attempt_events a,
               Ok (opt_data (response_of a)))).
  { unfold Download.qqDownload.
    rewrite qqDownload_for_failing by (auto; lia).
    rewrite qqDownload_for_step by lia.
    unfold Download.fails in Ha. apply negb_false_iff in Ha. rewrite Ha.
    rewrite after_pair, bind_ok. unfold ret, after; simpl.
    now rewrite app_nil_r. }
  split; [exact H|]. rewrite H. cbn [fst].
  rewrite gets_app, gets_download_events, gets_attempt_events. lia.
Qed.

Lemma qqDownload_stops_at_first_payload_witness :
  Forall (fun x => Download.fails x = true) [Sample.timeout; Sample.no_body]
  /\ (List.length [Sample.timeout; Sample.no_body] < 100)%nat
  /\ Download.fails Sample.photo = false
  /\ Download.qqDownload
       ([Sample.timeout; Sample.no_body] ++ Sample.photo :: [Sample.timeout])
     = ([EvGet; EvLog "QQ file download error caught"; EvGet; EvGet],
        Ok (JS.Buffer [Byte.xff])).
Proof.
  split; [repeat constructor|]. split; [simpl; lia|]. split; [reflexivity|].
  exact (proj1 (qqDownload_stops_at_first_payload
                  [Sample.timeout; Sample.no_body] Sample.photo [Sample.timeout]
                  ltac:(repeat constructor) ltac:(simpl; lia) eq_refl)).
Defined.

(** X2: whatever the network answers, [qqDownload] makes at most a hundred
    requests. *)
Theorem qqDownload_request_bound net :
  (Trace.gets (fst (Download.qqDownload net)) <= 100)%nat.
Proof.
  unfold Download.qqDownload.
  pose proof (qqDownload_for_gets net 0 None ltac:(lia)) as H.
  destruct (Download.qqDownload_for net 0 None) as [t [r | e | ]];
    cbn [bind ret fst] in *; rewrite ?app_nil_r; lia.
Qed.

(** X3: after a hundred failing attempts [qqDownload] has made exactly a
    hundred requests and returns the body of the response to the last of
    them, which is falsy (undefined when that request had no response). *)
Theorem qqDownload_exhausted_returns_last_body pre rest :
  Forall (fun x => Download.fails x = true) pre ->
  List.length pre = 100%nat ->
  Download.qqDownload (pre ++ rest) =
    (Trace.download_events pre,
     Ok (opt_data (response_of (last pre (Rejected None)))))
  /\ JS.truthy (opt_data (response_of (last pre (Rejected None)))) = false
  /\ Trace.gets (fst (Download.qqDownload (pre ++ rest))) = 100%nat.
Proof.
  intros Hpre Hlen.
  assert (Hne : pre <> []) by (intros ->; discriminate).
  assert (H : Download.qqDownload (pre ++ rest) =
              (Trace.download_events pre,
               Ok (opt_data (response_of (last pre (Rejected None)))))).
  { unfold Download.qqDownload.
    rewrite qqDownload_for_failing by (auto; lia).
    rewrite qqDownload_for_past_ceiling by lia.
    rewrite (last_response_last pre None (Rejected None) Hne).
    rewrite after_pair, bind_ok. unfold ret, after; simpl.
    now rewrite !app_nil_r. }
  split; [exact H|]. split.
  - assert (Hin : In (last pre (Rejected None)) pre).
    { destruct (exists_last Hne) as (l & x & ->). rewrite last_last.
      apply in_or_app. right. now left. }
    rewrite Forall_forall in Hpre. specialize (Hpre _ Hin).
    unfold Download.fails in Hpre. now apply negb_true_iff in Hpre.
  - rewrite H. cbn [fst]. now rewrite gets_download_events.
Qed.

Lemma qqDownload_exhausted_returns_last_body_witness :
  Forall (fun x => Download.fails x = true)
    (repeat Sample.timeout 99 ++ [Resolved {| data := JS.Str "" |}])
  /\ List.length (repeat Sample.timeout 99 ++ [Resolved {| data := JS.Str "" |}])
     = 100%nat
  /\ snd (Download.qqDownload
            ((repeat Sample.timeout 99 ++ [Resolved {| data := JS.Str "" |}])
             ++ [Sample.photo]))
     = Ok (JS.Str "").
Proof.
  assert (H : Forall (fun x => Download.fails x = true)
                (repeat Sample.timeout 99 ++ [Resolved {| data := JS.Str "" |}]))
    by (repeat constructor).
  split; [exact H|]. split; [reflexivity|].
  rewrite (proj1 (qqDownload_exhausted_returns_last_body _ [Sample.photo]
                    H eq_refl)).
  reflexivity.
Defined.

(** X4: [qqDownload] is still waiting exactly when fewer than a hundred
    answers have come and all of them failed; with a hundred answers, or one
    truthy body among them, it has returned. *)
Theorem qqDownload_pending_iff net :
  snd (Download.qqDownload net) = Pending
  <-> (List.length net < 100)%nat
      /\ Forall (fun x => Download.fails x = true) net.
Proof.
  rewrite snd_qqDownload.
  pose proof (qqDownload_for_pending net 0 None ltac:(lia)) as H.
  destruct (snd (Download.qqDownload_for net 0 None)) eqn:E.
  - split; [discriminate|]. intros [H1 H2].
    assert (@Ok (option Response) a = Pending) by (apply H; split; [lia | assumption]).
    discriminate.
  - split; [discriminate|]. intros [H1 H2].
    assert (@Throw (option Response) e = Pending) by (apply H; split; [lia | assumption]).
    discriminate.
  - split; [|reflexivity]. intros _.
    destruct (proj1 H eq_refl) as [H1 H2]. split; [lia | assumption].
Qed.

(** X5: the test of line 96 is truthiness, not size: a response whose body
    is a buffer ends the loop and is returned, however many bytes it has,
    none included. *)
Theorem qqDownload_returns_any_buffer pre bytes rest :
  Forall (fun x => Download.fails x = true) pre ->
  (List.length pre < 100)%nat ->
  snd (Download.qqDownload
         (pre ++ Resolved {| data := JS.Buffer bytes |} :: rest))
  = Ok (JS.Buffer bytes).
Proof.
  intros Hpre Hlen.
  now apply (qqDownload_first_payload pre {| data := JS.Buffer bytes |} rest).
Qed.

Lemma qqDownload_returns_any_buffer_witness :
  Forall (fun x => Download.fails x = true)
    [Resolved {| data := JS.Str "" |}]
  /\ (List.length [Resolved {| data := JS.Str "" |}] < 100)%nat
  /\ snd (Download.qqDownload
            ([Resolved {| data := JS.Str "" |}]
             ++ Fixture.empty_file :: [Sample.photo]))
     = Ok (JS.Buffer []).
Proof.
  split; [repeat constructor|]. split; [simpl; lia|].
  exact (qqDownload_returns_any_buffer [Resolved {| data := JS.Str "" |}] []
           [Sample.photo] ltac:(repeat constructor) ltac:(simpl; lia)).
Defined.

(** ** [qqRequest]: the order of the tests and where an outcome comes from *)

Section RequestOutcomes.
Import Request.

Variable JSON_parse : JS.Value -> option JS.Value.

(** What the way the body is left tells about the payload. *)
Lemma body_inv retry a :
  match snd (qqRequest_body retry a) with
  | Raise e =>
      (e = censorship /\ illegal (payload a) = true)
      \/ (e = no_face /\ illegal (payload a) = false
          /\ code_1001 (payload a) = true)
  | Break =>
      illegal (payload a) = false /\ code_1001 (payload a) = false
      /\ has_extra (payload a) = true
  | Continue =>
      illegal (payload a) = false /\ code_1001 (payload a) = false
      /\ has_extra (payload a) = false
  end.
Proof.
  unfold qqRequest_body, payload. set (d := opt_data (response_of a)).
  destruct (illegal d); [left; auto|].
  destruct (rate_limit d); destruct (code_1001 d); destruct (has_extra d);
    cbn [snd]; auto.
Qed.

Lemma body_continue_iff retry a :
  snd (qqRequest_body retry a) = Continue <-> retryable a = true.
Proof.
  unfold qqRequest_body, retryable, only_rate_limit, unrecognized, payload.
  set (d := opt_data (response_of a)).
  destruct (illegal d); destruct (rate_limit d); destruct (code_1001 d);
    destruct (has_extra d); cbn; split; (discriminate || reflexivity).
Qed.

Lemma body_continue_retry retry a :
  snd (qqRequest_body retry a) = Continue ->
  snd (fst (qqRequest_body retry a)) = if consuming a then retry else retry - 1.
Proof.
  unfold qqRequest_body, consuming, payload.
  set (d := opt_data (response_of a)).
  destruct (illegal d); [discriminate|].
  destruct (rate_limit d); destruct (code_1001 d); destruct (has_extra d);
    cbn; (discriminate || reflexivity).
Qed.

Lemma qqRequest_for_pending net : forall retry r d,
  retry <= 100 ->
  (snd (qqRequest_for net retry r d) = Pending
   <-> Forall (fun a => retryable a = true) net
       /\ retry + Z.of_nat (consumed net) < 100).
Proof.
  induction net as [|a net IH]; intros retry r d Hle.
  - destruct (Z.lt_ge_cases retry 100) as [Hlt | Hge].
    + rewrite qqRequest_for_nil by assumption. cbn [snd]. unfold consumed.
      cbn [filter List.length]. split; [intros _; split; [constructor | lia]|reflexivity].
    + rewrite qqRequest_for_past_ceiling by assumption. cbn [snd].
      split; [discriminate | intros [_ H]; lia].
  - destruct (Z.lt_ge_cases retry 100) as [Hlt | Hge].
    2: { rewrite qqRequest_for_past_ceiling by assumption. cbn [snd].
         split; [discriminate | intros [_ H]; lia]. }
    rewrite qqRequest_for_step by assumption. rewrite consumed_cons.
    pose proof (body_continue_iff retry a) as Hc.
    pose proof (body_continue_retry retry a) as Hr.
    destruct (qqRequest_body retry a) as [[evs n] [ | | e]]; cbn [fst snd] in *.
    + specialize (Hr eq_refl). pose proof (proj1 Hc eq_refl) as Ha.
      rewrite snd_after.
      assert (Hn : n + 1 <= 100) by (destruct (consuming a); lia).
      rewrite (IH (n + 1) _ _ Hn). split.
      * intros [H1 H2]. split; [now constructor|].
        destruct (consuming a); lia.
      * intros [H1 H2]. inversion H1; subst. split; [assumption|].
        destruct (consuming a); lia.
    + split; [discriminate|]. intros [H _]. inversion H as [|? ? Ha _]; subst.
      apply Hc in Ha. discriminate.
    + split; [discriminate|]. intros [H _]. inversion H as [|? ? Ha _]; subst.
      apply Hc in Ha. discriminate.
Qed.

Lemma extract_settles v : snd (extract JSON_parse v) <> Pending.
Proof.
  unfold extract. destruct (JSON_parse v) as [extra|]; [|discriminate].
  destruct (JS.prop extra "video_urls") as [vs|]; [|discriminate]. cbn.
  destruct (JS.index vs 0) as [v0|]; [|discriminate]. cbn.
  destruct (JS.prop extra "img_urls") as [ims|]; [|discriminate]. cbn.
  destruct (JS.index ims 1) as [i1|]; discriminate.
Qed.




End RequestOutcomes.

(** The client on an answer that reaches the test of line 66 with a truthy
    [extra]. *)
Lemma qqRequest_from_extra
    (JSON_parse : JS.Value -> option JS.Value)
    (a : attempt) (net : list attempt) (retry : Z)
    (r : option Response) (d : JS.Value) :
  retry < 100 ->
  Request.illegal (Request.payload a) = false ->
  Request.code_1001 (Request.payload a) = false ->
  Request.has_extra (Request.payload a) = true ->
  Request.qqRequest_from JSON_parse (a :: net) retry r d =
  after (if Request.rate_limit (Request.payload a)
         then [EvPost; EvLog "QQ rate limit caught"; EvSleep 3000]
         else [EvPost])
    (Request.extract JSON_parse (JS.opt_prop (Request.payload a) "extra")).
Proof.
  intros Hlt. unfold Request.qqRequest_from.
  rewrite qqRequest_for_step by assumption.
  unfold Request.qqRequest_body.
  unfold Request.payload. set (p := opt_data (response_of a)).
  intros -> -> He. rewrite He.
  destruct (Request.rate_limit p); rewrite bind_ok;
    unfold Request.qqRequest_end; fold p; now rewrite He.
Qed.

(** X6: the tests of the loop are taken in the order of the source, for a
    payload with several markers too.  The illegal-content marker ends the
    client before anything else is read; code 1001 ends it before [extra] is
    read; and a rate-limit marker beside code 1001 or [extra] only puts the
    backoff in front of the same outcome. *)
Theorem marker_precedence
    (JSON_parse : JS.Value -> option JS.Value)
    (a : attempt) (net : list attempt) (retry : Z)
    (r : option Response) (d : JS.Value) :
  retry < 100 ->
  let first_events :=
    if Request.rate_limit (Request.payload a)
    then [EvPost; EvLog "QQ rate limit caught"; EvSleep 3000]
    else [EvPost] in
  (Request.illegal (Request.payload a) = true ->
   Request.qqRequest_from JSON_parse (a :: net) retry r d =
   ([EvPost], Throw Request.censorship))
  /\ (Request.illegal (Request.payload a) = false ->
      Request.code_1001 (Request.payload a) = true ->
      Request.qqRequest_from JSON_parse (a :: net) retry r d =
      (first_events, Throw Request.no_face))
  /\ (Request.illegal (Request.payload a) = false ->
      Request.code_1001 (Request.payload a) = false ->
      Request.has_extra (Request.payload a) = true ->
      Request.qqRequest_from JSON_parse (a :: net) retry r d =
      after first_events
        (Request.extract JSON_parse
           (JS.opt_prop (Request.payload a) "extra"))).
Proof.
  intros Hlt first_events. unfold Request.qqRequest_from.
  rewrite qqRequest_for_step by assumption.
  unfold Request.qqRequest_body, first_events.
  unfold Request.payload. set (p := opt_data (response_of a)).
  split; [|split].
  - intros ->. reflexivity.
  - intros -> ->. now destruct (Request.rate_limit p).
  - intros -> -> He. rewrite He.
    destruct (Request.rate_limit p); rewrite bind_ok;
      unfold Request.qqRequest_end; fold p; now rewrite He.
Qed.


Lemma marker_precedence_witness :
  0 < 100
  /\ Request.qqRequest Sample.parse [Fixture.illegal_with_result]
     = ([EvPost], Throw Request.censorship)
  /\ Request.qqRequest Sample.parse [Fixture.limited_no_face; Sample.success]
     = ([EvPost; EvLog "QQ rate limit caught"; EvSleep 3000],
        Throw Request.no_face)
  /\ Request.qqRequest Sample.parse [Fixture.limited_result]
     = ([EvPost; EvLog "QQ rate limit caught"; EvSleep 3000],
        Ok {| Request.video := JS.Str "v.mp4"; Request.img := JS.Str "out.jpg" |}).
Proof.
  pose proof (fun a net =>
    marker_precedence Sample.parse a net 0 None JS.Undefined ltac:(lia)) as H.
  split; [lia|]. unfold Request.qqRequest.
  split; [exact (proj1 (H Fixture.illegal_with_result []) eq_refl)|].
  split; [exact (proj1 (proj2 (H Fixture.limited_no_face [Sample.success]))
                   eq_refl eq_refl)|].
  rewrite (proj2 (proj2 (H Fixture.limited_result [])) eq_refl eq_refl eq_refl).
  reflexivity.
Defined.

(** X7: the client reads the response and not the way the request settled:
    a request rejected with an HTTP error status is classified by the body of
    its response exactly like a resolved one. *)
Theorem qqRequest_reads_only_the_response
    (JSON_parse : JS.Value -> option JS.Value) (net : list attempt) :
  Request.qqRequest JSON_parse (map Trace.as_resolved net)
  = Request.qqRequest JSON_parse net.
Proof.
  assert (Hr : forall a, response_of (Trace.as_resolved a) = response_of a).
  { intros [r | [r | ]]; reflexivity. }
  assert (Hb : forall retry a,
             Request.qqRequest_body retry (Trace.as_resolved a)
             = Request.qqRequest_body retry a).
  { intros retry a. unfold Request.qqRequest_body. now rewrite Hr. }
  unfold Request.qqRequest, Request.qqRequest_from. f_equal.
  generalize 0 (@None Response) JS.Undefined.
  induction net as [|a net IH]; intros retry r d; [reflexivity|].
  cbn [map Request.qqRequest_for]. rewrite Hb, Hr.
  destruct (retry <? 100); [|reflexivity].
  destruct (Request.qqRequest_body retry a) as [[evs n] [ | | e]];
    try reflexivity.
  now rewrite IH.
Qed.

(** X8: a truthy [extra] that cannot be used ends the client with the
    exception of the extraction and without another request, whatever is
    left of the budget: a [SyntaxError] when [JSON.parse] refuses it, a
    [TypeError] when the parsed value has no [video_urls] or no
    [img_urls]. *)
Theorem unusable_envelope_is_terminal
    (JSON_parse : JS.Value -> option JS.Value)
    (a : attempt) (net : list attempt) (retry : Z)
    (r : option Response) (d : JS.Value) :
  retry < 100 ->
  Request.illegal (Request.payload a) = false ->
  Request.code_1001 (Request.payload a) = false ->
  Request.has_extra (Request.payload a) = true ->
  (JSON_parse (JS.opt_prop (Request.payload a) "extra") = None ->
   snd (Request.qqRequest_from JSON_parse (a :: net) retry r d)
   = Throw JS.SyntaxError)
  /\ (forall extra,
        JSON_parse (JS.opt_prop (Request.payload a) "extra") = Some extra ->
        JS.opt_prop extra "video_urls" = JS.Undefined
        \/ JS.opt_prop extra "img_urls" = JS.Undefined ->
        snd (Request.qqRequest_from JSON_parse (a :: net) retry r d)
        = Throw JS.TypeError)
  /\ Request.posts (fst (Request.qqRequest_from JSON_parse (a :: net) retry r d))
     = 1%nat.
Proof.
  intros Hlt Hill Hcode Hextra.
  pose proof (qqRequest_from_extra JSON_parse a net retry r d Hlt
                Hill Hcode Hextra) as Hrun.
  split; [|split].
  - intros Hparse. rewrite Hrun, snd_after. unfold Request.extract.
    now rewrite Hparse.
  - intros extra Hparse Hmissing. rewrite Hrun, snd_after.
    unfold Request.extract. rewrite Hparse.
    unfold JS.prop.
    destruct extra as [ | | b | n | s | bytes | items | fields];
      try reflexivity;
      cbn [JS.opt_prop] in *;
      try (destruct Hmissing as [H | H]; reflexivity).
    destruct Hmissing as [H | H].
    + rewrite H. reflexivity.
    + rewrite H.
      destruct (JS.assoc "video_urls" fields)
        as [ | | b | n | s | bytes | items | fields']; reflexivity.
  - rewrite fst_qqRequest_from, qqRequest_for_step by assumption.
    pose proof (body_posts retry a) as Hp.
    pose proof (body_inv retry a) as Hinv.
    destruct (Request.qqRequest_body retry a) as [[evs n] [ | | e]];
      cbn [fst snd] in *.
    + destruct Hinv as (_ & _ & H). congruence.
    + exact Hp.
    + exact Hp.
Qed.

Lemma unusable_envelope_is_terminal_witness :
  0 < 100
  /\ Request.illegal (Request.payload Fixture.malformed) = false
  /\ Request.code_1001 (Request.payload Fixture.malformed) = false
  /\ Request.has_extra (Request.payload Fixture.malformed) = true
  /\ snd (Request.qqRequest Fixture.parse [Fixture.malformed; Sample.success])
     = Throw JS.SyntaxError
  /\ snd (Request.qqRequest Fixture.parse [Fixture.no_images; Sample.success])
     = Throw JS.TypeError.
Proof.
  split; [lia|]. do 3 (split; [reflexivity|]).
  split.
  - exact (proj1 (unusable_envelope_is_terminal Fixture.parse Fixture.malformed
                    [Sample.success] 0 None JS.Undefined
                    ltac:(lia) eq_refl eq_refl eq_refl) eq_refl).
  - exact (proj1 (proj2 (unusable_envelope_is_terminal Fixture.parse
                           Fixture.no_images [Sample.success] 0 None
                           JS.Undefined ltac:(lia) eq_refl eq_refl eq_refl))
             (JS.Obj [("video_urls", JS.Arr [JS.Str "v.mp4"])]) eq_refl
             (or_intror eq_refl)).
Defined.

(** X9: [qqRequest] is still waiting exactly when every answer so far was
    one that keeps the loop going (rate-limited and nothing else, or
    unrecognized) and fewer than a hundred of them were not rate-limited;
    in every other case it has settled. *)
Theorem qqRequest_pending_iff
    (JSON_parse : JS.Value -> option JS.Value) (net : list attempt) :
  snd (Request.qqRequest JSON_parse net) = Pending
  <-> Forall (fun a => Request.retryable a = true) net
      /\ (Request.consumed net < 100)%nat.
Proof.
  pose proof (qqRequest_for_pending net 0 None JS.Undefined ltac:(lia)) as H.
  unfold Request.qqRequest, Request.qqRequest_from.
  destruct (Request.qqRequest_for net 0 None JS.Undefined) as [t [st | e | ]];
    cbn [snd] in H.
  - split.
    + intros Hp. exfalso. rewrite bind_ok, snd_after in Hp.
      destruct st as [r' d']. unfold Request.qqRequest_end in Hp.
      destruct (Request.has_extra d'); [|discriminate].
      now apply (extract_settles JSON_parse) in Hp.
    + intros [H1 H2].
      assert (@Ok (option Response * JS.Value) st = Pending)
        by (apply H; split; [assumption | lia]).
      discriminate.
  - split; [discriminate|]. intros [H1 H2].
    assert (@Throw (option Response * JS.Value) e = Pending)
      by (apply H; split; [assumption | lia]).
    discriminate.
  - split; [|reflexivity]. intros _.
    destruct (proj1 H eq_refl) as [H1 H2]. split; [assumption | lia].
Qed.



(** ** The session list: what a release removes *)

Section RegistryExtras.
Import Registry.

Lemma entries_remove_first_self u sessions :
  In u (map userId sessions) ->
  S (List.length (entries u (remove_first u sessions)))
  = List.length (entries u sessions).
Proof.
  induction sessions as [|s rest IH]; cbn [map remove_first entries filter];
    intros H; [contradiction|].
  destruct (userId s =? u) eqn:E; [reflexivity|].
  apply Z.eqb_neq in E. destruct H as [H | H]; [contradiction|].
  cbn [entries filter]. apply Z.eqb_neq in E. rewrite E. now apply IH.
Qed.

Lemma remove_first_pushed u s sessions later :
  userId s = u -> ~ In u (map userId sessions) ->
  remove_first u (sessions ++ s :: later) = sessions ++ later.
Proof.
  intros Hs. induction sessions as [|x rest IH]; cbn [map app remove_first];
    intros H.
  - apply Z.eqb_eq in Hs. now rewrite Hs.
  - destruct (userId x =? u) eqn:E.
    + apply Z.eqb_eq in E. exfalso. apply H. now left.
    + f_equal. apply IH. intros H'. apply H. now right.
Qed.

End RegistryExtras.

(** X11: lines 175-176 on a list without an entry of the user remove the
    last session of the list, whoever owns it; only on the empty list do they
    change nothing. *)
Theorem release_without_entry_drops_last_session u front s :
  ~ In u (map userId (front ++ [s])) ->
  Registry.releaseSession u (front ++ [s]) = front
  /\ Registry.releaseSession u [] = [].
Proof.
  intros H. split; [|reflexivity].
  rewrite releaseSession_absent by assumption. apply removelast_last.
Qed.

Lemma release_without_entry_drops_last_session_witness :
  ~ In 3 (map userId ([Sample.session 42] ++ [Sample.session 7]))
  /\ Registry.releaseSession 3 ([Sample.session 42] ++ [Sample.session 7])
     = [Sample.session 42].
Proof.
  assert (H : ~ In 3 (map userId ([Sample.session 42] ++ [Sample.session 7]))).
  { cbn. intros [H | [H | []]]; discriminate. }
  split; [exact H|].
  exact (proj1 (release_without_entry_drops_last_session 3 [Sample.session 42]
                  (Sample.session 7) H)).
Defined.

(** X12: on any list that holds the user, duplicates included, lines 175-176
    take out the first entry of that user and nothing else: the list gets
    shorter by one, the user has one entry less, and the entries of the other
    users stay as they are. *)
Theorem release_removes_first_entry_only u sessions :
  In u (map userId sessions) ->
  Registry.releaseSession u sessions = Registry.remove_first u sessions
  /\ S (List.length (Registry.releaseSession u sessions)) = List.length sessions
  /\ S (List.length (Registry.entries u (Registry.releaseSession u sessions)))
     = List.length (Registry.entries u sessions)
  /\ (forall v, v <> u ->
        Registry.entries v (Registry.releaseSession u sessions)
        = Registry.entries v sessions).
Proof.
  intros H. rewrite releaseSession_present by assumption.
  split; [reflexivity|]. split; [now apply length_remove_first|].
  split; [now apply entries_remove_first_self|].
  intros v Hv. now apply entries_remove_first_other.
Qed.

Lemma release_removes_first_entry_only_witness :
  In 42 (map userId [Sample.session 7; Sample.session 42; Sample.session 42])
  /\ Registry.releaseSession 42
       [Sample.session 7; Sample.session 42; Sample.session 42]
     = [Sample.session 7; Sample.session 42].
Proof.
  assert (H : In 42 (map userId
                       [Sample.session 7; Sample.session 42; Sample.session 42]))
    by (right; now left).
  split; [exact H|].
  rewrite (proj1 (release_removes_first_entry_only 42 _ H)). reflexivity.
Defined.

(** X13: an admission followed by the release of the same user gives the
    list back: for a user without an entry, the session pushed at line 192 is
    the one lines 175-176 remove, whatever sessions other users have pushed
    behind it in the meantime. *)
Theorem admit_then_release_restores_list u p c sessions later :
  ~ In u (map userId sessions) ->
  Registry.releaseSession u
    (snd (Registry.addUserSession u p c sessions) ++ later)
  = sessions ++ later.
Proof.
  intros H. unfold Registry.addUserSession.
  rewrite (proj2 (find_none u sessions) H). cbn [snd].
  rewrite <- app_assoc. cbn [app].
  rewrite releaseSession_present.
  - now apply remove_first_pushed.
  - rewrite map_app. apply in_or_app. right. now left.
Qed.

Lemma admit_then_release_restores_list_witness :
  ~ In 42 (map userId [Sample.session 7])
  /\ Registry.releaseSession 42
       (snd (Registry.addUserSession 42 "photo" O [Sample.session 7])
        ++ [Sample.session 3])
     = [Sample.session 7] ++ [Sample.session 3].
Proof.
  assert (H : ~ In 42 (map userId [Sample.session 7])).
  { cbn. intros [H | []]; discriminate. }
  split; [exact H|].
  exact (admit_then_release_restores_list 42 "photo" O [Sample.session 7]
           [Sample.session 3] H).
Defined.

(** X14: in every state the bot can reach, the users of the session list
    are the users with a run under way, each once: the list is as long as the
    number of runs, and it is empty when no run is under way. *)
Theorem sessions_match_runs st :
  Registry.reachable st ->
  Permutation (map userId (Registry.userSessions st)) (Registry.running st)
  /\ List.length (Registry.userSessions st) = List.length (Registry.running st)
  /\ (Registry.running st = [] -> Registry.userSessions st = []).
Proof.
  intros Hreach.
  destruct (reachable_consistent st Hreach) as (Hids & Hrun & Hiff).
  assert (Hperm : Permutation (map userId (Registry.userSessions st))
                    (Registry.running st)).
  { apply NoDup_Permutation; auto. intros x. now rewrite Hiff. }
  split; [exact Hperm|]. split.
  - apply Permutation_length in Hperm. now rewrite length_map in Hperm.
  - intros Hnone. rewrite Hnone in Hperm. apply Permutation_sym in Hperm.
    apply Permutation_nil in Hperm. now apply map_eq_nil in Hperm.
Qed.

Lemma sessions_match_runs_witness :
  Registry.reachable Fixture.two_running
  /\ List.length (Registry.userSessions Fixture.two_running)
     = List.length (Registry.running Fixture.two_running).
Proof.
  assert (H : Registry.reachable Fixture.two_running).
  { apply (Registry.reach_step Sample.one_running (Registry.Photo 7 "photo" O)).
    - exact (Registry.reach_step Registry.initial (Registry.Photo 42 "photo" O)
               Sample.one_running Registry.reach_initial eq_refl).
    - reflexivity. }
  split; [exact H|].
  exact (proj1 (proj2 (sessions_match_runs Fixture.two_running H))).
Defined.

(** ** One run: what each way out leaves behind *)

Section RunExtras.
Import Orchestrator.

Variable JSON_parse : JS.Value -> option JS.Value.

Ltac run_stage :=
  cbn [bind await emit ret throw after fst snd app Request.lift
       source_guard all2 keep try_catch processUserSession_catch swallowed].

Lemma forallb_nil_filter (P Q : event -> bool) t :
  (forall ev, P ev = true -> Q ev = false) ->
  forallb P t = true -> filter Q t = [].
Proof.
  intros HPQ. induction t as [|ev t IH]; cbn [forallb filter]; [reflexivity|].
  intros H. apply andb_true_iff in H. destruct H as [H1 H2].
  rewrite (HPQ ev H1). now apply IH.
Qed.

Lemma of_loop_app t t' :
  forallb Trace.of_loop (t ++ t') = true <->
  forallb Trace.of_loop t = true /\ forallb Trace.of_loop t' = true.
Proof. rewrite forallb_app. apply andb_true_iff. Qed.

Lemma of_loop_source_for net : forall retry response,
  forallb Trace.of_loop (fst (source_for net retry response)) = true.
Proof.
  induction net as [|a net IH]; intros retry response; cbn [source_for].
  - now destruct (retry <? 100).
  - destruct (retry <? 100); [|reflexivity].
    destruct (JS.truthy _); [reflexivity|].
    rewrite fst_after. apply of_loop_app. split; [reflexivity | apply IH].
Qed.

Lemma of_loop_qqRequest net :
  forallb Trace.of_loop (fst (Request.qqRequest JSON_parse net)) = true.
Proof.
  unfold Request.qqRequest. rewrite fst_qqRequest_from.
  generalize 0 (@None Response) JS.Undefined.
  induction net as [|a net IH]; intros retry response d;
    cbn [Request.qqRequest_for].
  - now destruct (retry <? 100).
  - destruct (retry <? 100); [|reflexivity].
    assert (Hq : forallb Trace.of_loop
                   (fst (fst (Request.qqRequest_body retry a))) = true).
    { unfold Request.qqRequest_body.
      set (p := opt_data (response_of a)).
      destruct (Request.illegal p); [reflexivity|].
      destruct (Request.rate_limit p); destruct (Request.code_1001 p);
        destruct (Request.has_extra p); reflexivity. }
    destruct (Request.qqRequest_body retry a) as [[evs n] [ | | e]];
      cbn [fst] in *; try assumption.
    rewrite fst_after. apply of_loop_app. split; [assumption | apply IH].
Qed.

Lemma of_loop_qqDownload net :
  forallb Trace.of_loop (fst (Download.qqDownload net)) = true.
Proof.
  unfold Download.qqDownload.
  assert (H : forall retry response,
             forallb Trace.of_loop
               (fst (Download.qqDownload_for net retry response)) = true).
  { induction net as [|a net IH]; intros retry response;
      cbn [Download.qqDownload_for].
    - now destruct (retry <? 100).
    - destruct (retry <? 100); [|reflexivity].
      destruct (JS.truthy _); [now destruct a|].
      rewrite fst_after. apply of_loop_app. split; [now destruct a | apply IH]. }
  specialize (H 0 None).
  destruct (Download.qqDownload_for net 0 None) as [t [r | e | ]];
    cbn [bind ret fst] in *; rewrite ?app_nil_r; assumption.
Qed.

Lemma deliveries_app t t' :
  Trace.deliveries (t ++ t') = (Trace.deliveries t + Trace.deliveries t')%nat.
Proof. unfold Trace.deliveries. now rewrite filter_app, length_app. Qed.

Lemma posts_app t t' :
  Request.posts (t ++ t') = (Request.posts t + Request.posts t')%nat.
Proof. unfold Request.posts. now rewrite filter_app, length_app. Qed.

Lemma deliveries_of_loop t :
  forallb Trace.of_loop t = true -> Trace.deliveries t = O.
Proof.
  intros H. unfold Trace.deliveries.
  rewrite (forallb_nil_filter Trace.of_loop Trace.is_delivery); auto.
  intros [] E; try reflexivity; discriminate.
Qed.

Lemma posts_source_for net : forall retry response,
  Request.posts (fst (source_for net retry response)) = O.
Proof.
  induction net as [|a net IH]; intros retry response; cbn [source_for].
  - now destruct (retry <? 100).
  - destruct (retry <? 100); [|reflexivity].
    destruct (JS.truthy _); [reflexivity|].
    rewrite fst_after, posts_app. now rewrite IH.
Qed.

(** Requests that are all rejected leave [response] undefined. *)
Lemma source_for_rejected pre : forall retry rest,
  Forall (fun a => is_rejected a = true) pre ->
  retry + Z.of_nat (List.length pre) <= 100 ->
  source_for (pre ++ rest) retry None =
  after (repeat EvGet (List.length pre))
    (source_for rest (retry + Z.of_nat (List.length pre)) None).
Proof.
  induction pre as [|a pre IH]; intros retry rest Hpre Hle.
  - cbn [List.length app repeat]. rewrite Z.add_0_r. now rewrite after_nil.
  - inversion Hpre as [|? ? Ha Hrest]; subst.
    cbn [List.length] in *. rewrite Nat2Z.inj_succ in *.
    rewrite <- app_comm_cons, source_for_step by lia.
    destruct a as [r | e]; [discriminate|]. cbn [opt_data JS.truthy].
    rewrite IH by (auto; lia). rewrite after_after.
    replace (retry + 1 + Z.of_nat (List.length pre))
      with (retry + Z.succ (Z.of_nat (List.length pre))) by lia.
    reflexivity.
Qed.

(** The run when the body of the [try] has thrown. *)
Lemma run_of_throw KEEP_FILES env s sessions t e :
  processUserSession_try JSON_parse KEEP_FILES env = (t, Throw e) ->
  processUserSession JSON_parse KEEP_FILES env s sessions =
  (t ++ [EvErrorNotice e; EvLog "Error has occurred"; EvLog "console.error";
         EvRelease (userId s); EvLog "Sessions length decreased"],
   Ok (Registry.releaseSession (userId s) sessions)).
Proof.
  intros H. unfold processUserSession. rewrite H. run_stage.
  now rewrite <- app_assoc.
Qed.

Lemma run_of_ok KEEP_FILES env s sessions t :
  processUserSession_try JSON_parse KEEP_FILES env = (t, Ok tt) ->
  processUserSession JSON_parse KEEP_FILES env s sessions =
  (t ++ [EvRelease (userId s); EvLog "Sessions length decreased"],
   Ok (Registry.releaseSession (userId s) sessions)).
Proof. intros H. unfold processUserSession. rewrite H. reflexivity. Qed.

(** The body of the [try] up to the answer to the first progress message. *)
Lemma try_until_upload KEEP_FILES env t r e :
  getFileLink env = Ok tt ->
  source_for (source_net env) 0 None = (t, Ok (Some r)) ->
  reply_received env = Throw e ->
  processUserSession_try JSON_parse KEEP_FILES env =
  (t ++ (if KEEP_FILES then [EvWriteFile "input" (data r)] else [])
     ++ [EvLog "Uploading to QQ";
         EvReply "Photo has been received, uploading to QQ"],
   Throw e).
Proof.
  intros Hget Hsrc Hrecv. unfold processUserSession_try.
  rewrite Hget, Hsrc. run_stage. rewrite Hrecv.
  destruct KEEP_FILES; run_stage; reflexivity.
Qed.

Lemma gets_qqRequest net :
  Trace.gets (fst (Request.qqRequest JSON_parse net)) = O.
Proof.
  unfold Request.qqRequest. rewrite fst_qqRequest_from.
  generalize 0 (@None Response) JS.Undefined.
  induction net as [|a net IH]; intros retry response d;
    cbn [Request.qqRequest_for].
  - now destruct (retry <? 100).
  - destruct (retry <? 100); [|reflexivity].
    assert (Hq : Trace.gets (fst (fst (Request.qqRequest_body retry a))) = O).
    { unfold Request.qqRequest_body.
      set (p := opt_data (response_of a)).
      destruct (Request.illegal p); [reflexivity|].
      destruct (Request.rate_limit p); destruct (Request.code_1001 p);
        destruct (Request.has_extra p); reflexivity. }
    destruct (Request.qqRequest_body retry a) as [[evs n] [ | | e]];
      cbn [fst] in *; try assumption.
    rewrite fst_after, gets_app, Hq. apply IH.
Qed.

(** The body of the [try] up to the failure of the remote service. *)
Lemma try_until_result KEEP_FILES env t r t2 e :
  getFileLink env = Ok tt ->
  source_for (source_net env) 0 None = (t, Ok (Some r)) ->
  reply_received env = Ok tt ->
  JS.toString_base64 (data r) = inl tt ->
  Request.qqRequest JSON_parse (qq_net env) = (t2, Throw e) ->
  processUserSession_try JSON_parse KEEP_FILES env =
  (t ++ (if KEEP_FILES then [EvWriteFile "input" (data r)] else [])
     ++ [EvLog "Uploading to QQ";
         EvReply "Photo has been received, uploading to QQ"] ++ t2,
   Throw e).
Proof.
  intros Hget Hsrc Hrecv Hstr Hqq. unfold processUserSession_try.
  rewrite Hget, Hsrc. run_stage. rewrite Hrecv, Hstr, Hqq.
  destruct KEEP_FILES; run_stage; reflexivity.
Qed.

(** The body of the [try] when every step succeeds. *)
Lemma try_to_the_end KEEP_FILES env t r t2 urls t3 v t4 i :
  getFileLink env = Ok tt ->
  source_for (source_net env) 0 None = (t, Ok (Some r)) ->
  reply_received env = Ok tt ->
  JS.toString_base64 (data r) = inl tt ->
  Request.qqRequest JSON_parse (qq_net env) = (t2, Ok urls) ->
  reply_downloading env = Ok tt ->
  Download.qqDownload (video_net env) = (t3, Ok v) ->
  Download.qqDownload (img_net env) = (t4, Ok i) ->
  send_photo env = Ok tt -> send_video env = Ok tt -> reply_done env = Ok tt ->
  processUserSession_try JSON_parse KEEP_FILES env =
  (t ++ (if KEEP_FILES then [EvWriteFile "input" (data r)] else [])
     ++ [EvLog "Uploading to QQ";
         EvReply "Photo has been received, uploading to QQ"]
     ++ t2
     ++ [EvLog "QQ responded successfully";
         EvReply "Downloading the result from QQ";
         EvLog "Downloading from QQ"]
     ++ t3 ++ t4
     ++ (if KEEP_FILES then [EvWriteFile "output_img" i] else [])
     ++ [EvSendPhoto i; EvSendVideo v; EvLog "Files sent"; EvReply "Done."],
   Ok tt).
Proof.
  intros Hget Hsrc Hrecv Hstr Hqq Hdl Hv Hi Hp Hs Hd.
  unfold processUserSession_try.
  rewrite Hget, Hsrc. run_stage. rewrite Hrecv, Hstr, Hqq. run_stage.
  rewrite Hdl, Hv, Hi. run_stage. rewrite Hp, Hs, Hd.
  destruct KEEP_FILES; run_stage; rewrite <- ?app_assoc; reflexivity.
Qed.

(** A hundred failing attempts, as [qqDownload] returns from them. *)
Lemma qqDownload_exhausted_eq pre rest :
  Forall (fun x => Download.fails x = true) pre ->
  List.length pre = 100%nat ->
  Download.qqDownload (pre ++ rest) =
  (Trace.download_events pre,
   Ok (opt_data (response_of (last pre (Rejected None)))))
  /\ JS.truthy (opt_data (response_of (last pre (Rejected None)))) = false.
Proof.
  intros Hpre Hlen.
  assert (Hne : pre <> []) by (intros ->; discriminate).
  split.
  - unfold Download.qqDownload.
    rewrite qqDownload_for_failing by (auto; lia).
    rewrite qqDownload_for_past_ceiling by lia.
    rewrite (last_response_last pre None (Rejected None) Hne).
    rewrite after_pair, bind_ok. unfold ret, after; simpl.
    now rewrite !app_nil_r.
  - assert (Hin : In (last pre (Rejected None)) pre).
    { destruct (exists_last Hne) as (l & x & ->). rewrite last_last.
      apply in_or_app. right. now left. }
    rewrite Forall_forall in Hpre. specialize (Hpre _ Hin).
    unfold Download.fails in Hpre. now apply negb_true_iff in Hpre.
Qed.

End RunExtras.

(** X15: the progress message is awaited inside the [try], so its failure
    ends the run: when the reply of line 138 is rejected, nothing is sent to
    the remote service, the rejection becomes the error notice, and the
    session is released. *)
Theorem failed_progress_reply_aborts_the_run
    (JSON_parse : JS.Value -> option JS.Value) (KEEP_FILES : bool)
    (env : Orchestrator.Env) (s : UserSession) (sessions : list UserSession)
    (t : list event) (r : Response) (e : JS.Error) :
  Orchestrator.getFileLink env = Ok tt ->
  Orchestrator.source_for (Orchestrator.source_net env) 0 None
    = (t, Ok (Some r)) ->
  Orchestrator.reply_received env = Throw e ->
  Orchestrator.processUserSession JSON_parse KEEP_FILES env s sessions =
    (t ++ (if KEEP_FILES then [EvWriteFile "input" (data r)] else [])
       ++ [EvLog "Uploading to QQ";
           EvReply "Photo has been received, uploading to QQ";
           EvErrorNotice e; EvLog "Error has occurred"; EvLog "console.error";
           EvRelease (userId s); EvLog "Sessions length decreased"],
     Ok (Registry.releaseSession (userId s) sessions))
  /\ Request.posts
       (fst (Orchestrator.processUserSession JSON_parse KEEP_FILES env s sessions))
     = O.
Proof.
  intros Hget Hsrc Hrecv.
  pose proof (try_until_upload JSON_parse KEEP_FILES env t r e Hget Hsrc Hrecv)
    as Htry.
  pose proof (run_of_throw JSON_parse KEEP_FILES env s sessions _ e Htry) as Hrun.
  assert (Ht : Request.posts t = O).
  { pose proof (posts_source_for (Orchestrator.source_net env) 0 None) as H.
    now rewrite Hsrc in H. }
  rewrite Hrun. split.
  - rewrite <- !app_assoc. reflexivity.
  - cbn [fst]. rewrite !posts_app, Ht. now destruct KEEP_FILES.
Qed.

Lemma failed_progress_reply_aborts_the_run_witness :
  snd (Orchestrator.processUserSession Sample.parse true
         Fixture.blocked
         (Sample.session 42) [Sample.session 42])
    = Ok []
  /\ Request.posts
       (fst (Orchestrator.processUserSession Sample.parse true
               Fixture.blocked
               (Sample.session 42) [Sample.session 42]))
     = O.
Proof.
  split; [reflexivity|].
  exact (proj2 (failed_progress_reply_aborts_the_run Sample.parse true
                  Fixture.blocked
                  (Sample.session 42) [Sample.session 42] [EvGet]
                  {| data := JS.Buffer [Byte.xff] |} (JS.External "blocked by user")
                  eq_refl eq_refl eq_refl)).
Defined.

(** X16: when the remote service fails, terminally or by exhaustion, the
    run downloads nothing and delivers nothing: the error of [qqRequest]
    becomes the error notice and the session is released. *)
Theorem remote_failure_delivers_nothing
    (JSON_parse : JS.Value -> option JS.Value) (KEEP_FILES : bool)
    (env : Orchestrator.Env) (s : UserSession) (sessions : list UserSession)
    (t : list event) (r : Response) (t2 : list event) (e : JS.Error) :
  Orchestrator.getFileLink env = Ok tt ->
  Orchestrator.source_for (Orchestrator.source_net env) 0 None
    = (t, Ok (Some r)) ->
  Orchestrator.reply_received env = Ok tt ->
  JS.toString_base64 (data r) = inl tt ->
  Request.qqRequest JSON_parse (Orchestrator.qq_net env) = (t2, Throw e) ->
  Orchestrator.processUserSession JSON_parse KEEP_FILES env s sessions =
    (t ++ (if KEEP_FILES then [EvWriteFile "input" (data r)] else [])
       ++ [EvLog "Uploading to QQ";
           EvReply "Photo has been received, uploading to QQ"]
       ++ t2
       ++ [EvErrorNotice e; EvLog "Error has occurred"; EvLog "console.error";
           EvRelease (userId s); EvLog "Sessions length decreased"],
     Ok (Registry.releaseSession (userId s) sessions))
  /\ Trace.deliveries
       (fst (Orchestrator.processUserSession JSON_parse KEEP_FILES env s sessions))
     = O
  /\ Trace.gets
       (fst (Orchestrator.processUserSession JSON_parse KEEP_FILES env s sessions))
     = Trace.gets t.
Proof.
  intros Hget Hsrc Hrecv Hstr Hqq.
  pose proof (try_until_result JSON_parse KEEP_FILES env t r t2 e
                Hget Hsrc Hrecv Hstr Hqq) as Htry.
  pose proof (run_of_throw JSON_parse KEEP_FILES env s sessions _ e Htry) as Hrun.
  assert (Ht : Trace.deliveries t = O).
  { apply deliveries_of_loop.
    pose proof (of_loop_source_for (Orchestrator.source_net env) 0 None) as H.
    now rewrite Hsrc in H. }
  assert (Ht2 : Trace.deliveries t2 = O).
  { apply deliveries_of_loop.
    pose proof (of_loop_qqRequest JSON_parse (Orchestrator.qq_net env)) as H.
    now rewrite Hqq in H. }
  assert (Hg2 : Trace.gets t2 = O).
  { pose proof (gets_qqRequest JSON_parse (Orchestrator.qq_net env)) as H.
    now rewrite Hqq in H. }
  rewrite Hrun. split; [|split].
  - rewrite <- !app_assoc. reflexivity.
  - cbn [fst]. rewrite !deliveries_app, Ht, Ht2. now destruct KEEP_FILES.
  - cbn [fst]. rewrite !gets_app, Hg2. destruct KEEP_FILES; cbn; lia.
Qed.

Lemma remote_failure_delivers_nothing_witness :
  Orchestrator.processUserSession Sample.parse false
    (Sample.env [Sample.photo] [Sample.no_face])
    (Sample.session 42) [Sample.session 42]
  = ([EvGet; EvLog "Uploading to QQ";
      EvReply "Photo has been received, uploading to QQ"; EvPost;
      EvErrorNotice Request.no_face; EvLog "Error has occurred";
      EvLog "console.error"; EvRelease 42; EvLog "Sessions length decreased"],
     Ok []).
Proof.
  exact (proj1 (remote_failure_delivers_nothing Sample.parse false
                  (Sample.env [Sample.photo] [Sample.no_face])
                  (Sample.session 42) [Sample.session 42] [EvGet]
                  {| data := JS.Buffer [Byte.xff] |} [EvPost] Request.no_face
                  eq_refl eq_refl eq_refl eq_refl eq_refl)).
Defined.

Lemma notices_app t t' :
  Trace.notices (t ++ t') = (Trace.notices t + Trace.notices t')%nat.
Proof. unfold Trace.notices. now rewrite filter_app, length_app. Qed.

Lemma notices_of_loop t :
  forallb Trace.of_loop t = true -> Trace.notices t = O.
Proof.
  intros H. unfold Trace.notices.
  rewrite (forallb_nil_filter Trace.of_loop Trace.is_notice); auto.
  intros [] E; try reflexivity; discriminate.
Qed.

Lemma in_fst_try_catch {A} (m : Async A) (h : JS.Error -> Async A) ev :
  In ev (fst m) -> In ev (fst (try_catch m h)).
Proof.
  destruct m as [t [a | e | ]]; cbn [try_catch fst]; auto.
  destruct (h e); cbn [fst]. intros H. apply in_or_app. now left.
Qed.

(** X17: when every step succeeds, the run is the sequence of the source:
    the photo is loaded, the upload is announced, the remote service is
    asked, the download is announced, both files are fetched, the photo and
    the video are each sent once with the bodies of their downloads, the end
    is announced and the session is released; no error notice is sent. *)
Theorem successful_run_delivers_both_files
    (JSON_parse : JS.Value -> option JS.Value) (KEEP_FILES : bool)
    (env : Orchestrator.Env) (s : UserSession) (sessions : list UserSession)
    (t : list event) (r : Response) (t2 : list event) (urls : Request.Urls)
    (t3 : list event) (v : JS.Value) (t4 : list event) (i : JS.Value) :
  Orchestrator.getFileLink env = Ok tt ->
  Orchestrator.source_for (Orchestrator.source_net env) 0 None
    = (t, Ok (Some r)) ->
  Orchestrator.reply_received env = Ok tt ->
  JS.toString_base64 (data r) = inl tt ->
  Request.qqRequest JSON_parse (Orchestrator.qq_net env) = (t2, Ok urls) ->
  Orchestrator.reply_downloading env = Ok tt ->
  Download.qqDownload (Orchestrator.video_net env) = (t3, Ok v) ->
  Download.qqDownload (Orchestrator.img_net env) = (t4, Ok i) ->
  Orchestrator.send_photo env = Ok tt ->
  Orchestrator.send_video env = Ok tt ->
  Orchestrator.reply_done env = Ok tt ->
  Orchestrator.processUserSession JSON_parse KEEP_FILES env s sessions =
    (t ++ (if KEEP_FILES then [EvWriteFile "input" (data r)] else [])
       ++ [EvLog "Uploading to QQ";
           EvReply "Photo has been received, uploading to QQ"]
       ++ t2
       ++ [EvLog "QQ responded successfully";
           EvReply "Downloading the result from QQ";
           EvLog "Downloading from QQ"]
       ++ t3 ++ t4
       ++ (if KEEP_FILES then [EvWriteFile "output_img" i] else [])
       ++ [EvSendPhoto i; EvSendVideo v; EvLog "Files sent"; EvReply "Done.";
           EvRelease (userId s); EvLog "Sessions length decreased"],
     Ok (Registry.releaseSession (userId s) sessions))
  /\ Trace.deliveries
       (fst (Orchestrator.processUserSession JSON_parse KEEP_FILES env s sessions))
     = 2%nat
  /\ Trace.notices
       (fst (Orchestrator.processUserSession JSON_parse KEEP_FILES env s sessions))
     = O.
Proof.
  intros Hget Hsrc Hrecv Hstr Hqq Hdl Hv Hi Hp Hs Hd.
  pose proof (try_to_the_end JSON_parse KEEP_FILES env t r t2 urls t3 v t4 i
                Hget Hsrc Hrecv Hstr Hqq Hdl Hv Hi Hp Hs Hd) as Htry.
  pose proof (run_of_ok JSON_parse KEEP_FILES env s sessions _ Htry) as Hrun.
  assert (Ht : forallb Trace.of_loop t = true).
  { pose proof (of_loop_source_for (Orchestrator.source_net env) 0 None) as H.
    now rewrite Hsrc in H. }
  assert (Ht2 : forallb Trace.of_loop t2 = true).
  { pose proof (of_loop_qqRequest JSON_parse (Orchestrator.qq_net env)) as H.
    now rewrite Hqq in H. }
  assert (Ht3 : forallb Trace.of_loop t3 = true).
  { pose proof (of_loop_qqDownload (Orchestrator.video_net env)) as H.
    now rewrite Hv in H. }
  assert (Ht4 : forallb Trace.of_loop t4 = true).
  { pose proof (of_loop_qqDownload (Orchestrator.img_net env)) as H.
    now rewrite Hi in H. }
  rewrite Hrun. split; [|split].
  - rewrite <- !app_assoc. reflexivity.
  - cbn [fst]. rewrite !deliveries_app.
    rewrite (deliveries_of_loop t Ht), (deliveries_of_loop t2 Ht2),
      (deliveries_of_loop t3 Ht3), (deliveries_of_loop t4 Ht4).
    now destruct KEEP_FILES.
  - cbn [fst]. rewrite !notices_app.
    rewrite (notices_of_loop t Ht), (notices_of_loop t2 Ht2),
      (notices_of_loop t3 Ht3), (notices_of_loop t4 Ht4).
    now destruct KEEP_FILES.
Qed.

Lemma successful_run_delivers_both_files_witness :
  Orchestrator.processUserSession Sample.parse false
    (Orchestrator.with_reply_error (Ok tt)
       (Sample.env [Sample.photo] [Sample.success]))
    (Sample.session 42) [Sample.session 42]
  = ([EvGet; EvLog "Uploading to QQ";
      EvReply "Photo has been received, uploading to QQ"; EvPost;
      EvLog "QQ responded successfully";
      EvReply "Downloading the result from QQ"; EvLog "Downloading from QQ";
      EvGet; EvGet;
      EvSendPhoto (JS.Buffer [Byte.x02]); EvSendVideo (JS.Buffer [Byte.x01]);
      EvLog "Files sent"; EvReply "Done.";
      EvRelease 42; EvLog "Sessions length decreased"],
     Ok []).
Proof.
  exact (proj1 (successful_run_delivers_both_files Sample.parse false
                  (Orchestrator.with_reply_error (Ok tt)
                     (Sample.env [Sample.photo] [Sample.success]))
                  (Sample.session 42) [Sample.session 42]
                  [EvGet] {| data := JS.Buffer [Byte.xff] |}
                  [EvPost]
                  {| Request.video := JS.Str "v.mp4"; Request.img := JS.Str "out.jpg" |}
                  [EvGet] (JS.Buffer [Byte.x01]) [EvGet] (JS.Buffer [Byte.x02])
                  eq_refl eq_refl eq_refl eq_refl eq_refl eq_refl eq_refl
                  eq_refl eq_refl eq_refl eq_refl)).
Defined.

(** X18: a download that is exhausted does not end the run where it
    happens.  When the hundred requests for the image all fail, [qqDownload]
    returns their last, falsy body and the run goes on to [replyWithPhoto]
    with that body as its source. *)
Theorem exhausted_image_download_is_sent_on
    (JSON_parse : JS.Value -> option JS.Value) (KEEP_FILES : bool)
    (env : Orchestrator.Env) (s : UserSession) (sessions : list UserSession)
    (t : list event) (r : Response) (t2 : list event) (urls : Request.Urls)
    (t3 : list event) (v : JS.Value) (pre rest : list attempt) :
  Orchestrator.getFileLink env = Ok tt ->
  Orchestrator.source_for (Orchestrator.source_net env) 0 None
    = (t, Ok (Some r)) ->
  Orchestrator.reply_received env = Ok tt ->
  JS.toString_base64 (data r) = inl tt ->
  Request.qqRequest JSON_parse (Orchestrator.qq_net env) = (t2, Ok urls) ->
  Orchestrator.reply_downloading env = Ok tt ->
  Download.qqDownload (Orchestrator.video_net env) = (t3, Ok v) ->
  Orchestrator.img_net env = pre ++ rest ->
  Forall (fun x => Download.fails x = true) pre ->
  List.length pre = 100%nat ->
  In (EvSendPhoto (opt_data (response_of (last pre (Rejected None)))))
     (fst (Orchestrator.processUserSession JSON_parse KEEP_FILES env s sessions))
  /\ JS.truthy (opt_data (response_of (last pre (Rejected None)))) = false.
Proof.
  intros Hget Hsrc Hrecv Hstr Hqq Hdl Hv Himg Hpre Hlen.
  destruct (qqDownload_exhausted_eq pre rest Hpre Hlen) as [Hi Hfalsy].
  rewrite <- Himg in Hi.
  split; [|exact Hfalsy].
  unfold Orchestrator.processUserSession.
  apply in_fst_bind, in_fst_try_catch.
  unfold Orchestrator.processUserSession_try.
  rewrite Hget, Hsrc.
  cbn [bind Orchestrator.await emit ret throw after fst snd app Request.lift
       Orchestrator.source_guard Orchestrator.all2 Orchestrator.keep].
  rewrite Hrecv, Hstr, Hqq.
  cbn [bind Orchestrator.await emit ret throw after fst snd app Request.lift
       Orchestrator.source_guard Orchestrator.all2 Orchestrator.keep].
  rewrite Hdl, Hv, Hi.
  destruct KEEP_FILES;
    destruct (Orchestrator.send_photo env) as [[] | e1 | ];
    destruct (Orchestrator.send_video env) as [[] | e2 | ];
    cbn [bind Orchestrator.await emit ret throw after fst snd app Request.lift
         Orchestrator.source_guard Orchestrator.all2 Orchestrator.keep];
    repeat first [rewrite in_app_iff | progress cbn [In]]; auto 30.
Qed.

Lemma exhausted_image_download_is_sent_on_witness :
  Forall (fun x => Download.fails x = true) (repeat Sample.timeout 100)
  /\ List.length (repeat Sample.timeout 100) = 100%nat
  /\ In (EvSendPhoto JS.Undefined)
       (fst (Orchestrator.processUserSession Sample.parse false
               Fixture.no_image (Sample.session 42) [Sample.session 42])).
Proof.
  assert (H : Forall (fun x => Download.fails x = true)
                (repeat Sample.timeout 100)) by (repeat constructor).
  split; [exact H|]. split; [reflexivity|].
  exact (proj1 (exhausted_image_download_is_sent_on Sample.parse false
                  Fixture.no_image (Sample.session 42) [Sample.session 42]
                  [EvGet] {| data := JS.Buffer [Byte.xff] |} [EvPost]
                  {| Request.video := JS.Str "v.mp4"; Request.img := JS.Str "out.jpg" |}
                  [EvGet] (JS.Buffer [Byte.xff]) (repeat Sample.timeout 100) []
                  eq_refl eq_refl eq_refl eq_refl eq_refl eq_refl eq_refl
                  eq_refl H eq_refl)).
Defined.

(** X19: when none of the hundred requests for the photo resolves, the run
    makes those hundred requests and nothing else: no progress message, no
    request to the remote service; the load failure becomes the error notice
    and the session is released. *)
Theorem load_failure_uploads_nothing
    (JSON_parse : JS.Value -> option JS.Value) (KEEP_FILES : bool)
    (env : Orchestrator.Env) (s : UserSession) (sessions : list UserSession)
    (pre rest : list attempt) :
  Orchestrator.getFileLink env = Ok tt ->
  Orchestrator.source_net env = pre ++ rest ->
  Forall (fun a => Orchestrator.is_rejected a = true) pre ->
  List.length pre = 100%nat ->
  Orchestrator.processUserSession JSON_parse KEEP_FILES env s sessions =
    (repeat EvGet 100
       ++ [EvLog "Couldn't load the photo";
           EvErrorNotice Orchestrator.load_failed;
           EvLog "Error has occurred"; EvLog "console.error";
           EvRelease (userId s); EvLog "Sessions length decreased"],
     Ok (Registry.releaseSession (userId s) sessions)).
Proof.
  intros Hget Hnet Hpre Hlen.
  assert (Hsrc : Orchestrator.source_for (Orchestrator.source_net env) 0 None
                 = (repeat EvGet 100, Ok None)).
  { rewrite Hnet, source_for_rejected by (auto; lia).
    rewrite source_for_past_ceiling by lia.
    rewrite Hlen, after_pair. now rewrite app_nil_r. }
  assert (Htry : Orchestrator.processUserSession_try JSON_parse KEEP_FILES env
                 = (repeat EvGet 100 ++ [EvLog "Couldn't load the photo"],
                    Throw Orchestrator.load_failed)).
  { unfold Orchestrator.processUserSession_try. rewrite Hget, Hsrc.
    reflexivity. }
  rewrite (run_of_throw JSON_parse KEEP_FILES env s sessions _ _ Htry).
  now rewrite <- app_assoc.
Qed.

Lemma load_failure_uploads_nothing_witness :
  Forall (fun a => Orchestrator.is_rejected a = true)
    (repeat Fixture.error_page 100)
  /\ List.length (repeat Fixture.error_page 100) = 100%nat
  /\ snd (Orchestrator.processUserSession Sample.parse true
            (Sample.env (repeat Fixture.error_page 100 ++ [Sample.photo])
               [Sample.success])
            (Sample.session 42) [Sample.session 42])
     = Ok [].
Proof.
  assert (H : Forall (fun a => Orchestrator.is_rejected a = true)
                (repeat Fixture.error_page 100)) by (repeat constructor).
  split; [exact H|]. split; [reflexivity|].
  rewrite (load_failure_uploads_nothing Sample.parse true
             (Sample.env (repeat Fixture.error_page 100 ++ [Sample.photo])
                [Sample.success])
             (Sample.session 42) [Sample.session 42]
             (repeat Fixture.error_page 100) [Sample.photo] eq_refl eq_refl H eq_refl).
  reflexivity.
Defined.

(** ** The photo handler and the shutdown *)

Lemma processUserSession_settles_without_throw
    (JSON_parse : JS.Value -> option JS.Value) (KEEP_FILES : bool)
    (env : Orchestrator.Env) (s : UserSession) (sessions : list UserSession) :
  (forall e,
      snd (Orchestrator.processUserSession JSON_parse KEEP_FILES env s sessions)
      <> Throw e)
  /\ (snd (Orchestrator.processUserSession_try JSON_parse KEEP_FILES env)
      <> Pending ->
      snd (Orchestrator.processUserSession JSON_parse KEEP_FILES env s sessions)
      = Ok (Registry.releaseSession (userId s) sessions)).
Proof.
  unfold Orchestrator.processUserSession.
  destruct (Orchestrator.processUserSession_try JSON_parse KEEP_FILES env)
    as [t [[] | e | ]]; cbn; split; try discriminate; try reflexivity.
  intros H. now contradiction H.
Qed.

(** X20: the handler takes the file of the last size of the photo, and the
    empty string when the message has no size. *)
Theorem photo_handler_takes_the_last_size :
  (forall sizes p, Bot.photoId_of (sizes ++ [p]) = Bot.file_id p)
  /\ Bot.photoId_of [] = "".
Proof.
  split; [|reflexivity].
  intros sizes p. unfold Bot.photoId_of. rewrite rev_unit.
  destruct (Bot.file_id p =? "")%string eqn:E; [|reflexivity].
  apply String.eqb_eq in E. now rewrite E.
Qed.

(** X21: a photo of a user who already has a session costs one message and
    nothing else: [addUserSession] sends the notice, makes no request,
    starts no run, and leaves the session list as it is; it fails only when
    that notice cannot be sent. *)
Theorem queued_user_is_only_told_to_wait
    (JSON_parse : JS.Value -> option JS.Value) (KEEP_FILES : bool)
    (queue_reply : Outcome unit) (env : Orchestrator.Env)
    (between : list UserSession -> list UserSession)
    (u : Z) (p : string) (c : Context) (sessions : list UserSession) :
  In u (map userId sessions) ->
  fst (Bot.addUserSession JSON_parse KEEP_FILES queue_reply env between
         u p c sessions)
    = [EvReply "You are already in the queue, please wait"]
  /\ (queue_reply = Ok tt ->
      snd (Bot.addUserSession JSON_parse KEEP_FILES queue_reply env between
             u p c sessions) = Ok sessions)
  /\ (forall e, queue_reply = Throw e ->
      snd (Bot.addUserSession JSON_parse KEEP_FILES queue_reply env between
             u p c sessions) = Throw e).
Proof.
  intros Hin. unfold Bot.addUserSession, Registry.addUserSession.
  destruct (Registry.find u sessions) eqn:F.
  2: { apply find_none in F. contradiction. }
  destruct queue_reply as [[] | e | ]; cbn; repeat split;
    try discriminate; try reflexivity.
  intros e' H. now inversion H.
Qed.

Lemma queued_user_is_only_told_to_wait_witness :
  In 42 (map userId [Sample.session 42])
  /\ Bot.addUserSession Sample.parse true (Ok tt)
       (Sample.env [Sample.photo] [Sample.success]) (fun l => l)
       42 "again" O [Sample.session 42]
     = ([EvReply "You are already in the queue, please wait"],
        Ok [Sample.session 42]).
Proof.
  assert (H : In 42 (map userId [Sample.session 42])) by (now left).
  split; [exact H|].
  pose proof (queued_user_is_only_told_to_wait Sample.parse true (Ok tt)
                (Sample.env [Sample.photo] [Sample.success]) (fun l => l)
                42 "again" O [Sample.session 42] H) as (H1 & H2 & _).
  specialize (H2 eq_refl).
  destruct (Bot.addUserSession Sample.parse true (Ok tt)
              (Sample.env [Sample.photo] [Sample.success]) (fun l => l)
              42 "again" O [Sample.session 42]) as [t o].
  cbn [fst snd] in *. now subst.
Defined.

(** The photo handler never lets an exception out: the run catches its
    own, and the rejection of the queue notice is taken by the [catch] of
    line 207. *)
Lemma photo_handler_never_rejects
    (JSON_parse : JS.Value -> option JS.Value) (KEEP_FILES : bool)
    (queue_reply : Outcome unit) (env : Orchestrator.Env)
    (between : list UserSession -> list UserSession)
    (m : Bot.Message) (c : Context) (sessions : list UserSession)
    (e : JS.Error) :
  snd (Bot.on_photo JSON_parse KEEP_FILES queue_reply env between m c sessions)
  <> Throw e.
Proof.
  unfold Bot.on_photo. rewrite snd_after.
  destruct (Bot.addUserSession JSON_parse KEEP_FILES queue_reply env between
              (Bot.from_id m) (Bot.photoId_of (Bot.photo m)) c sessions)
    as [t [l | e' | ]]; cbn; discriminate.
Qed.

(** X22: a run that ends gives the session list back.  For a user without
    an entry, whatever the outcome of the run and whatever sessions other
    users have pushed behind it in the meantime, [addUserSession] leaves the
    list it found with those sessions behind it. *)
Theorem ended_run_restores_the_session_list
    (JSON_parse : JS.Value -> option JS.Value) (KEEP_FILES : bool)
    (queue_reply : Outcome unit) (env : Orchestrator.Env)
    (u : Z) (p : string) (c : Context)
    (sessions later : list UserSession) :
  ~ In u (map userId sessions) ->
  snd (Orchestrator.processUserSession_try JSON_parse KEEP_FILES env)
    <> Pending ->
  snd (Bot.addUserSession JSON_parse KEEP_FILES queue_reply env
         (fun l => l ++ later) u p c sessions)
  = Ok (sessions ++ later).
Proof.
  intros Hout Hends. unfold Bot.addUserSession, Registry.addUserSession.
  rewrite (proj2 (find_none u sessions) Hout). rewrite snd_after.
  rewrite (proj2 (processUserSession_settles_without_throw JSON_parse
                    KEEP_FILES env _ _) Hends).
  cbn [userId]. rewrite <- app_assoc. cbn [app].
  rewrite releaseSession_present.
  - now rewrite remove_first_pushed.
  - rewrite map_app. apply in_or_app. right. now left.
Qed.

Lemma ended_run_restores_the_session_list_witness :
  ~ In 42 (map userId [Sample.session 7])
  /\ snd (Orchestrator.processUserSession_try Sample.parse true
            (Sample.env [Sample.photo] [Sample.illegal_content]))
     <> Pending
  /\ snd (Bot.addUserSession Sample.parse true (Ok tt)
            (Sample.env [Sample.photo] [Sample.illegal_content])
            (fun l => l ++ [Sample.session 3]) 42 "photo" O [Sample.session 7])
     = Ok ([Sample.session 7] ++ [Sample.session 3]).
Proof.
  assert (H : ~ In 42 (map userId [Sample.session 7])).
  { cbn. intros [H | []]; discriminate. }
  assert (H' : snd (Orchestrator.processUserSession_try Sample.parse true
                      (Sample.env [Sample.photo] [Sample.illegal_content]))
               <> Pending) by (cbn; discriminate).
  split; [exact H|]. split; [exact H'|].
  exact (ended_run_restores_the_session_list Sample.parse true (Ok tt)
           (Sample.env [Sample.photo] [Sample.illegal_content])
           42 "photo" O [Sample.session 7] [Sample.session 3] H H').
Defined.

(** X23: the shutdown is one-shot.  However many of the process-level
    events fire and in whatever order, [bot.stop] is called once, with the
    reason of the first of them, and never again once the flag is set. *)
Theorem shutDown_stops_the_bot_once (reasons : list string) :
  snd (Bot.shutDowns false reasons) = firstn 1 reasons
  /\ snd (Bot.shutDowns true reasons) = []
  /\ (reasons <> [] -> fst (Bot.shutDowns false reasons) = true).
Proof.
  assert (Hset : forall l, Bot.shutDowns true l = (true, [])).
  { induction l as [|x l IH]; [reflexivity|].
    cbn [Bot.shutDowns Bot.shutDown]. now rewrite IH. }
  split; [|split].
  - destruct reasons as [|x l]; [reflexivity|].
    cbn [Bot.shutDowns Bot.shutDown]. now rewrite Hset.
  - now rewrite Hset.
  - destruct reasons as [|x l]; [contradiction|]. intros _.
    cbn [Bot.shutDowns Bot.shutDown]. now rewrite Hset.
Qed.

Lemma shutDown_stops_the_bot_once_witness :
  ["SIGINT"; "SIGTERM"; "unhandledRejection"] <> []
  /\ Bot.shutDowns false ["SIGINT"; "SIGTERM"; "unhandledRejection"]
     = (true, ["SIGINT"]).
Proof.
  assert (H : ["SIGINT"; "SIGTERM"; "unhandledRejection"] <> [])
    by discriminate.
  split; [exact H|].
  pose proof (shutDown_stops_the_bot_once
                ["SIGINT"; "SIGTERM"; "unhandledRejection"]) as (H1 & _ & H3).
  specialize (H3 H).
  destruct (Bot.shutDowns false ["SIGINT"; "SIGTERM"; "unhandledRejection"])
    as [flag stops].
  cbn [fst snd] in *. now subst.
Defined.

Lemma without_writes_of_loop t :
  forallb Trace.of_loop t = true ->
  filter (fun ev => negb (Trace.is_write ev)) t = t.
Proof.
  induction t as [|ev t IH]; cbn [forallb filter]; [reflexivity|].
  intros H. apply andb_true_iff in H. destruct H as [H1 H2].
  rewrite (IH H2). now destruct ev.
Qed.

Ltac stage :=
  cbn [bind Orchestrator.await emit ret throw after fst snd app Request.lift
       Orchestrator.source_guard Orchestrator.all2 Orchestrator.keep].

Ltac fin :=
  repeat first
    [ rewrite filter_app
    | progress cbn [filter negb Trace.is_write]
    | match goal with
      | H : filter _ ?t = ?t |- context [filter _ ?t] => rewrite H
      end ];
  reflexivity.

(** The body of the [try] with the flag on, less its writes, is the body
    with the flag off. *)
Lemma try_without_writes
    (JSON_parse : JS.Value -> option JS.Value) (env : Orchestrator.Env) :
  (Trace.without_writes
     (fst (Orchestrator.processUserSession_try JSON_parse true env)),
   snd (Orchestrator.processUserSession_try JSON_parse true env))
  = Orchestrator.processUserSession_try JSON_parse false env.
Proof.
  pose proof (of_loop_source_for (Orchestrator.source_net env) 0 None) as H1.
  pose proof (of_loop_qqRequest JSON_parse (Orchestrator.qq_net env)) as H2.
  pose proof (of_loop_qqDownload (Orchestrator.video_net env)) as H3.
  pose proof (of_loop_qqDownload (Orchestrator.img_net env)) as H4.
  apply without_writes_of_loop in H1, H2, H3, H4.
  unfold Orchestrator.processUserSession_try, Trace.without_writes.
  destruct (Orchestrator.getFileLink env) as [[] | ? | ];
    try reflexivity; stage;
  destruct (Orchestrator.source_for (Orchestrator.source_net env) 0 None)
    as [t [[r | ] | ? | ]]; cbn [fst] in H1; stage;
    try (solve [fin]);
  destruct (Orchestrator.reply_received env) as [[] | ? | ]; stage;
    try (solve [fin]);
  destruct (JS.toString_base64 (data r)) as [[] | ?]; stage;
    try (solve [fin]);
  destruct (Request.qqRequest JSON_parse (Orchestrator.qq_net env))
    as [t2 [urls | ? | ]]; cbn [fst] in H2; stage;
    try (solve [fin]);
  destruct (Orchestrator.reply_downloading env) as [[] | ? | ]; stage;
    try (solve [fin]);
  destruct (Download.qqDownload (Orchestrator.video_net env))
    as [t3 [v | ? | ]]; cbn [fst] in H3;
  destruct (Download.qqDownload (Orchestrator.img_net env))
    as [t4 [i | ? | ]]; cbn [fst] in H4; stage;
    try (solve [fin]);
  destruct (Orchestrator.send_photo env) as [[] | ? | ];
  destruct (Orchestrator.send_video env) as [[] | ? | ]; stage;
    try (solve [fin]);
  destruct (Orchestrator.reply_done env) as [[] | ? | ]; stage;
    fin.
Qed.

(** X24: inside a run the flag of line 15 adds the calls of [fs.writeFile]
    and nothing else.  The trace of the run with the flag on, less those
    calls, is the trace of the run with the flag off, and the two runs end
    the same way with the same session list.  The run does not await the
    writes, so how they settle is no part of it. *)
Theorem keeping_files_adds_only_the_writes
    (JSON_parse : JS.Value -> option JS.Value)
    (env : Orchestrator.Env) (s : UserSession) (sessions : list UserSession) :
  Trace.without_writes
    (fst (Orchestrator.processUserSession JSON_parse true env s sessions))
  = fst (Orchestrator.processUserSession JSON_parse false env s sessions)
  /\ snd (Orchestrator.processUserSession JSON_parse true env s sessions)
     = snd (Orchestrator.processUserSession JSON_parse false env s sessions)
  /\ (forall tag body,
        In (EvWriteFile tag body)
          (fst (Orchestrator.processUserSession JSON_parse false env s sessions))
        -> False).
Proof.
  pose proof (try_without_writes JSON_parse env) as H.
  unfold Orchestrator.processUserSession.
  destruct (Orchestrator.processUserSession_try JSON_parse true env)
    as [t [[] | e | ]];
    destruct (Orchestrator.processUserSession_try JSON_parse false env)
      as [t' [[] | e' | ]]; cbn [fst snd] in H; try discriminate;
    injection H as <-;
    cbn [try_catch Orchestrator.processUserSession_catch Orchestrator.swallowed
         bind emit ret fst snd app];
    unfold Trace.without_writes; rewrite ?filter_app; cbn [filter];
    fold (Trace.without_writes t).
  all: split; [|split]; try reflexivity.
  all: try (subst; reflexivity).
  all: intros tag body Hin;
    repeat (apply in_app_or in Hin; destruct Hin as [Hin | Hin]);
    try (apply filter_In in Hin; destruct Hin as [_ Hin]; discriminate);
    cbn [In] in Hin; repeat (destruct Hin as [Hin | Hin]; try discriminate);
    try contradiction.
Qed.

Lemma keeping_files_adds_only_the_writes_witness :
  In (EvWriteFile "input" (JS.Buffer [Byte.xff]))
    (fst (Orchestrator.processUserSession Sample.parse true
            (Sample.env [Sample.photo] [Sample.success])
            (Sample.session 42) [Sample.session 42]))
  /\ Trace.without_writes
       (fst (Orchestrator.processUserSession Sample.parse true
               (Sample.env [Sample.photo] [Sample.success])
               (Sample.session 42) [Sample.session 42]))
     = fst (Orchestrator.processUserSession Sample.parse false
              (Sample.env [Sample.photo] [Sample.success])
              (Sample.session 42) [Sample.session 42]).
Proof.
  split; [cbn; auto 10|].
  exact (proj1 (keeping_files_adds_only_the_writes Sample.parse
                  (Sample.env [Sample.photo] [Sample.success])
                  (Sample.session 42) [Sample.session 42])).
Defined.
